(** * knives.py: orchestration of the read-trimming pipeline

    A shallow embedding of [src/knives.py].  The script is straight-line
    effectful code: it queries the file system for executables, opens log
    and output files, creates a FIFO, spawns eight child processes wired
    through pipes, and finally unlinks the FIFO.  We model it in a state
    and exception monad whose state holds the chronological trace of the
    operating-system level operations performed by the parent process,
    the allocation counters for file objects and child processes, and
    the set of pipe read-ends the parent still holds open.

    Only the parent is modelled: what the children compute and write is
    outside the script.  Library calls are primitives of the monad; the
    environment decides which of them fail. *)

From Stdlib Require Import String Ascii List Bool Arith Lia.
From stdpp Require Import base decidable option list gmap sets strings.
Import ListNotations.
Local Open Scope string_scope.
Local Open Scope list_scope.

(** ** Command-line options

    [docopt(CLI_DOC)] yields a dictionary with one entry per option of
    the usage pattern.  Options that take an argument and have no
    default ([-K -C -E -P -s]) map to [None] when absent; those with a
    default ([-q -t -l -L]) and the required ones always map to a
    string; the flags [-S -n] map to booleans.  The key set is fixed by
    [CLI_DOC], so the dictionary is a record here. *)

Record Opts : Type := mkOpts {
  opt_K : option string;   (* -K SICKLE *)
  opt_C : option string;   (* -C SCYTHE *)
  opt_E : option string;   (* -E SEQQS *)
  opt_P : option string;   (* -P PAIRS *)
  opt_q : string;          (* -q QUAL    [default: 20] *)
  opt_t : string;          (* -t TYPE    [default: sanger] *)
  opt_l : string;          (* -l LEN     [default: 40] *)
  opt_s : option string;   (* -s SKIP *)
  opt_L : string;          (* -L LOGDIR  [Default: .] *)
  opt_S : bool;            (* -S *)
  opt_n : bool;            (* -n *)
  opt_a : string;          (* -a CONTAM *)
  opt_i : string;          (* -i IN1 *)
  opt_o : string;          (* -o OUT1 *)
  opt_I : string;          (* -I IN2 *)
  opt_O : string;          (* -O OUT2 *)
  opt_u : string;          (* -u UNPAIRED *)
  opt_p : string;          (* -p PREFIX *)
  opt_r : string           (* -r PRIOR *)
}.

(** Functional updates of [-s] and of [-t]. *)
Definition with_s (o : Opts) (v : option string) : Opts :=
  mkOpts (opt_K o) (opt_C o) (opt_E o) (opt_P o) (opt_q o) (opt_t o)
         (opt_l o) v (opt_L o) (opt_S o) (opt_n o) (opt_a o) (opt_i o)
         (opt_o o) (opt_I o) (opt_O o) (opt_u o) (opt_p o) (opt_r o).

Definition with_t (o : Opts) (v : string) : Opts :=
  mkOpts (opt_K o) (opt_C o) (opt_E o) (opt_P o) (opt_q o) v
         (opt_l o) (opt_s o) (opt_L o) (opt_S o) (opt_n o) (opt_a o)
         (opt_i o) (opt_o o) (opt_I o) (opt_O o) (opt_u o) (opt_p o)
         (opt_r o).

(** ** Streams, operations and exceptions *)

(** What a child gets for one of its standard streams: the [stdin=],
    [stdout=], [stderr=] keyword arguments of [sp.Popen]. *)
Inductive stream : Type :=
  | Inherit                    (* None: inherited from the parent *)
  | PIPE                       (* sp.PIPE: a new anonymous pipe *)
  | ProcStdout (pid : nat)     (* proc.stdout of an earlier child *)
  | FileObj (fh : nat).        (* an open file object of the parent *)

(** Operations of the parent on the outside world, in the order they
    happen.  File objects and children are named by allocation index. *)
Inductive event : Type :=
  | EFileHandler (path : string)             (* logging.FileHandler(path) *)
  | ELog (path : string) (msg : string)      (* a record written to a log *)
  | EGzipOpen (path : string) (fh : nat)     (* gzip.open(path, "w") *)
  | EMkfifo (path : string)                  (* os.mkfifo(path) *)
  | ETempFile (fh : nat)                     (* tempfile.TemporaryFile() *)
  | EPopen (pid : nat) (argv : list string)
           (stdin stdout stderr : stream)    (* sp.Popen(argv, ...) *)
  | ECloseStdout (pid : nat)                 (* proc.stdout.close() *)
  | ECommunicate (pid : nat)                 (* proc.communicate() *)
  | EPrint (pid : nat)                       (* print of that result *)
  | EUnlink (path : string).                 (* os.unlink(path) *)

Inductive exn : Type :=
  | RuntimeError (msg : string)
  | OSError (op : event)        (* the library call [op] failed *)
  | ValueError (op : event).    (* I/O operation on closed file *)

(** ** The environment of a run

    Everything the script reads from the outside world.  The queries of
    [find_progs] are oracles; [os_fails] decides, from the operations
    performed so far, whether the next library call raises. *)
Record Env : Type := mkEnv {
  NOW : string;                                   (* strftime at import *)
  gettempdir : string;                            (* tempfile.gettempdir() *)
  path_exists : string -> bool;                   (* os.path.exists *)
  isfile : string -> bool;                        (* os.path.isfile *)
  access_X_OK : string -> bool;                   (* os.access(_, os.X_OK) *)
  find_executable : string -> option string;      (* distutils.spawn *)
  os_fails : list event -> event -> bool
}.

(** ** State of the parent process *)
Record state : Type := mkState {
  trace : list event;          (* operations so far, oldest first *)
  next_fh : nat;               (* next file-object index *)
  next_pid : nat;              (* next child index *)
  open_stdout : gset nat       (* children whose stdout pipe the parent
                                  still holds open *)
}.

Definition init : state := mkState [] 0 0 ∅.

(** ** The monad *)
Inductive outcome (A : Type) : Type :=
  | Ok (a : A)
  | Raised (e : exn).
Arguments Ok {A} a.
Arguments Raised {A} e.

Definition M (A : Type) : Type := state -> outcome A * state.

Definition ret {A} (a : A) : M A := fun s => (Ok a, s).
Definition raise {A} (e : exn) : M A := fun s => (Raised e, s).
Definition bind {A B} (m : M A) (k : A -> M B) : M B :=
  fun s => match m s with
           | (Ok a, s') => k a s'
           | (Raised e, s') => (Raised e, s')
           end.

Declare Scope knives_scope.
Delimit Scope knives_scope with knives.
Notation "x <- m ;; k" := (bind m (fun x => k))
  (at level 100, m at next level, right associativity) : knives_scope.
Notation "m ;;; k" := (bind m (fun _ => k))
  (at level 100, right associativity) : knives_scope.
Local Open Scope knives_scope.

(** ** Pure helpers *)

(** Python truthiness of an optional string: [None] and [""] are false. *)
Definition truthy (v : option string) : bool :=
  match v with
  | Some s => negb (String.eqb s "")
  | None => false
  end.

Fixpoint endswith_sep (s : string) : bool :=
  match s with
  | EmptyString => false
  | String c EmptyString => Ascii.eqb c "/"
  | String _ rest => endswith_sep rest
  end.

(** [posixpath.join(a, b)]. *)
Definition path_join (a b : string) : string :=
  if String.prefix "/" b then b
  else if String.eqb a "" || endswith_sep a then a +:+ b
  else a +:+ "/" +:+ b.

(** [" ".join(cli)]. *)
Definition join_cli (cli : list string) : string := String.concat " " cli.

(** Logging levels of the [logging] module. *)
Definition DEBUG : nat := 10.
Definition INFO : nat := 20.

Inductive handler : Type :=
  | FileHandler (path : string) (level : nat)
  | NullHandler.

Record Logger : Type := mkLogger {
  lg_name : string;
  lg_level : nat;
  lg_handlers : list handler
}.

Record Loggers : Type := mkLoggers {
  CMD_LOG : Logger;
  STDERR_LOG : Logger;
  SUMMARY_LOG : Logger
}.

Record Progs : Type := mkProgs {
  SICKLE : string;
  SCYTHE : string;
  SEQQS : string;
  PAIRS : string
}.

(** The records a logger writes for one message at level [lvl]. *)
Definition log_records (lg : Logger) (lvl : nat) (msg : string) : list event :=
  if Nat.leb (lg_level lg) lvl then
    flat_map (fun h => match h with
                       | FileHandler p hl =>
                           if Nat.leb hl lvl then [ELog p msg] else []
                       | NullHandler => []
                       end) (lg_handlers lg)
  else [].

(** ** Library calls

    Each primitive appends the operation it performs to the trace.  A
    call that the operating system can refuse consults [os_fails] first
    and raises [OSError] without side effect when it is refused. *)
Section Knives.

Variable env : Env.

Definition push (e : event) (s : state) : state :=
  mkState (trace s ++ [e]) (next_fh s) (next_pid s) (open_stdout s).

Definition perform (e : event) : M unit :=
  fun s => if os_fails env (trace s) e then (Raised (OSError e), s)
           else (Ok tt, push e s).

(** [h = logging.FileHandler(path); h.setLevel(level)]: the file is
    opened when the handler is built. *)
Definition logging_FileHandler (path : string) (level : nat) : M handler :=
  perform (EFileHandler path) ;;; ret (FileHandler path level).

(** [lg.log(lvl, msg)]; [logging] never raises into the caller. *)
Definition Logger_log (lg : Logger) (lvl : nat) (msg : string) : M unit :=
  fun s => (Ok tt, mkState (trace s ++ log_records lg lvl msg)
                           (next_fh s) (next_pid s) (open_stdout s)).

Definition Logger_info (lg : Logger) (msg : string) : M unit :=
  Logger_log lg INFO msg.
Definition Logger_debug (lg : Logger) (msg : string) : M unit :=
  Logger_log lg DEBUG msg.

(** [gzip.open(path, "w")] returns a new file object. *)
Definition gzip_open (path : string) : M nat :=
  fun s => let fh := next_fh s in
           let e := EGzipOpen path fh in
           if os_fails env (trace s) e then (Raised (OSError e), s)
           else (Ok fh, mkState (trace s ++ [e]) (S fh) (next_pid s)
                                (open_stdout s)).

(** [tempfile.TemporaryFile()] returns a new anonymous file object. *)
Definition TemporaryFile : M nat :=
  fun s => let fh := next_fh s in
           let e := ETempFile fh in
           if os_fails env (trace s) e then (Raised (OSError e), s)
           else (Ok fh, mkState (trace s ++ [e]) (S fh) (next_pid s)
                                (open_stdout s)).

Definition mkfifo (path : string) : M unit := perform (EMkfifo path).
Definition unlink (path : string) : M unit := perform (EUnlink path).

(** Is the file object behind a stream argument already closed? *)
Definition stream_closed (s : state) (st : stream) : bool :=
  match st with
  | ProcStdout p => negb (bool_decide (p ∈ open_stdout s))
  | _ => false
  end.

(** [sp.Popen(argv, stdin=, stdout=, stderr=)] returns the new child.
    Passing a closed file object raises [ValueError]; with
    [stdout=sp.PIPE] the parent keeps the read end as [proc.stdout]. *)
Definition Popen (argv : list string) (stdin stdout stderr : stream)
  : M nat :=
  fun s => let pid := next_pid s in
           let e := EPopen pid argv stdin stdout stderr in
           if stream_closed s stdin then (Raised (ValueError e), s)
           else if os_fails env (trace s) e then (Raised (OSError e), s)
           else (Ok pid,
                 mkState (trace s ++ [e]) (next_fh s) (S pid)
                         (match stdout with
                          | PIPE => {[ pid ]} ∪ open_stdout s
                          | _ => open_stdout s
                          end)).

(** [proc.stdout] of a child spawned with [stdout=sp.PIPE]. *)
Definition proc_stdout (pid : nat) : stream := ProcStdout pid.

(** [proc.stdout.close()]; closing twice is allowed and does nothing
    the second time. *)
Definition stdout_close (pid : nat) : M unit :=
  fun s => (Ok tt, mkState (trace s ++ [ECloseStdout pid]) (next_fh s)
                           (next_pid s) (open_stdout s ∖ {[ pid ]})).

(** [proc.communicate()]: reads the child's stdout to the end, closes
    it and waits for the child to terminate. *)
Definition communicate (pid : nat) : M unit :=
  fun s => let e := ECommunicate pid in
           if os_fails env (trace s) e then (Raised (OSError e), s)
           else (Ok tt, mkState (trace s ++ [e]) (next_fh s) (next_pid s)
                                (open_stdout s ∖ {[ pid ]})).

(** [print(proc.communicate())], the printing part. *)
Definition print_result (pid : nat) : M unit := perform (EPrint pid).

(** ** [setup_logs] (lines 69-108) *)

(** The three log file names. *)
Definition cmd_lfn (opts : Opts) : string :=
  path_join (opt_L opts) (opt_p opts +:+ "_cmds_" +:+ NOW env +:+ ".log").
Definition stderr_lfn (opts : Opts) : string :=
  path_join (opt_L opts) (opt_p opts +:+ "_stderrs_" +:+ NOW env +:+ ".log").
Definition summary_lfn (opts : Opts) : string :=
  path_join (opt_L opts) (opt_p opts +:+ "_summary_" +:+ NOW env +:+ ".log").

Definition setup_logs (opts : Opts) : M Loggers :=
  if negb (path_exists env (opt_L opts)) then
    raise (RuntimeError "Log directory not found.")
  else
    (* Logger for the exact comands run *)
    cmd_fh <- logging_FileHandler (cmd_lfn opts) INFO ;;
    let CMD_LOG := mkLogger "knives_cmds" INFO [cmd_fh] in
    (* Logger for the stderr of each process *)
    stderr_hs <-
      (if negb (opt_S opts) then
         stderr_fh <- logging_FileHandler (stderr_lfn opts) DEBUG ;;
         ret [stderr_fh]
       else ret [NullHandler]) ;;
    let STDERR_LOG := mkLogger "knives_stderr" INFO stderr_hs in
    (* Logger for a summary of the run *)
    summary_fh <- logging_FileHandler (summary_lfn opts) INFO ;;
    let SUMMARY_LOG := mkLogger "knives_summary" INFO [summary_fh] in
    Logger_debug SUMMARY_LOG "Logging set up OK" ;;;
    ret (mkLoggers CMD_LOG STDERR_LOG SUMMARY_LOG).

(** ** [find_progs] (lines 110-147) *)

(** [opts[k] if opts[k] else find_executable(name)]. *)
Definition locate (given : option string) (name : string) : option string :=
  if truthy given then given else find_executable env name.

(** [not P or not (os.path.isfile(P) and os.access(P, os.X_OK))]. *)
Definition unusable (p : option string) : bool :=
  negb (truthy p) ||
  negb (match p with
        | Some f => isfile env f && access_X_OK env f
        | None => false
        end).

(** The guard of each of the four blocks: raise, or keep the path. *)
Definition require_prog (p : option string) (msg : string) : M string :=
  match p with
  | Some f => if unusable p then raise (RuntimeError msg) else ret f
  | None => raise (RuntimeError msg)
  end.

Definition find_progs (opts : Opts) : M Progs :=
  (* Find sickle *)
  sickle <- require_prog (locate (opt_K opts) "sickle") "Can't find sickle" ;;
  (* Find Scythe *)
  scythe <- require_prog (locate (opt_C opts) "scythe") "Can't find scythe" ;;
  (* Find seqqs *)
  seqqs <- require_prog (locate (opt_E opts) "seqqs") "Can't find seqqs" ;;
  (* Find pairs *)
  pairs <- require_prog (locate (opt_P opts) "pairs")
                        "Can't find sickle" ;;            (* sic, line 147 *)
  ret (mkProgs sickle scythe seqqs pairs).

(** ** [main] (lines 149-283)

    The module-level globals written by [setup_logs] and [find_progs]
    are passed on as their results [lg] and [pg]. *)

Definition seqqs_il_cli (pg : Progs) (opts : Opts) : list string :=
  [ SEQQS pg;                                 (* exe path *)
    "-i";                                     (* interleaved input *)
    "-e";                                     (* enable streaming *)
    "-q";                                     (* Qual encoding is: *)
    opt_q opts;
    "-p";                                     (* prefix is: *)
    opt_p opts +:+ "_initial_" +:+ NOW env;
    "-" ].                                    (* Use stdin *)

Definition seqqs_na_cli (pg : Progs) (opts : Opts) : list string :=
  [ SEQQS pg; "-i"; "-e";
    "-q"; opt_q opts;
    "-p"; opt_p opts +:+ "_noadapt_" +:+ NOW env;
    "-" ].

Definition seqqs_qt_cli (pg : Progs) (opts : Opts) : list string :=
  [ SEQQS pg; "-i"; "-e";
    "-q"; opt_q opts;
    "-p"; opt_p opts +:+ "_qualtrim_" +:+ NOW env;
    "-" ].

Definition unpaired_tmpfn : string :=
  path_join (gettempdir env) ("unpaired_" +:+ NOW env).

Definition interleave_cli (pg : Progs) (opts : Opts) : list string :=
  [ PAIRS pg; "join"; "-t"; opt_i opts; opt_I opts ].

Definition scythe_cli (pg : Progs) (opts : Opts) : list string :=
  [ SCYTHE pg; "-p"; opt_r opts; "-a"; opt_a opts; "-M"; "0"; "-" ].

Definition sickle_cli (pg : Progs) (opts : Opts) : list string :=
  [ SICKLE pg; "pe";
    "-t"; opt_q opts;
    "-c"; "/dev/stdin";
    "-m"; "/dev/stdout";
    "-s"; unpaired_tmpfn;
    "-q"; opt_q opts;
    "-l"; opt_l opts ]
  ++ (if opt_n opts then ["-n"] else []).

Definition cat_cli : list string := [ "cat"; unpaired_tmpfn ].

Definition deinterleave_cli (pg : Progs) (opts : Opts) : list string :=
  [ PAIRS pg; "split";
    "-1"; opt_o opts;
    "-2"; opt_O opts;
    "-u"; opt_u opts;
    "-" ].

Definition main (opts : Opts) : M unit :=
  lg <- setup_logs opts ;;
  pg <- find_progs opts ;;
  (* Setup output files *)
  unpaired_fh <- gzip_open (opt_u opts) ;;
  mkfifo unpaired_tmpfn ;;;
  (* interleave reads *)
  interleave_stderr <- TemporaryFile ;;
  Logger_info (CMD_LOG lg) (join_cli (interleave_cli pg opts)) ;;;
  interleave_proc <- Popen (interleave_cli pg opts)
                           Inherit PIPE (FileObj interleave_stderr) ;;
  (* initial QC *)
  Logger_info (CMD_LOG lg) (join_cli (seqqs_il_cli pg opts)) ;;;
  seqqs_il_stderr <- TemporaryFile ;;
  seqqs_il_proc <- Popen (seqqs_il_cli pg opts)
                         (proc_stdout interleave_proc) PIPE
                         (FileObj seqqs_il_stderr) ;;
  stdout_close interleave_proc ;;;
  (* scythe *)
  Logger_info (CMD_LOG lg) (join_cli (scythe_cli pg opts)) ;;;
  scythe_stderr <- TemporaryFile ;;
  scythe_proc <- Popen (scythe_cli pg opts)
                       (proc_stdout seqqs_il_proc) PIPE
                       (FileObj scythe_stderr) ;;
  stdout_close seqqs_il_proc ;;;
  (* QC after adaptor removal *)
  Logger_info (CMD_LOG lg) (join_cli (seqqs_na_cli pg opts)) ;;;
  seqqs_na_stderr <- TemporaryFile ;;
  seqqs_na_proc <- Popen (seqqs_na_cli pg opts)
                         (proc_stdout scythe_proc) PIPE
                         (FileObj seqqs_na_stderr) ;;
  stdout_close scythe_proc ;;;
  (* Sickle *)
  Logger_info (CMD_LOG lg) (join_cli (sickle_cli pg opts)) ;;;
  sickle_stderr <- TemporaryFile ;;
  sickle_proc <- Popen (sickle_cli pg opts)
                       (proc_stdout seqqs_na_proc) PIPE
                       (FileObj sickle_stderr) ;;
  stdout_close seqqs_il_proc ;;;                              (* line 242 *)
  (* Cat unpaired reads to file handle (avoids us touching disk) *)
  Logger_info (CMD_LOG lg) (join_cli cat_cli) ;;;
  cat_stderr <- TemporaryFile ;;
  cat_proc <- Popen cat_cli Inherit (FileObj unpaired_fh)
                    (FileObj cat_stderr) ;;
  (* QC after qual trimming *)
  Logger_info (CMD_LOG lg) (join_cli (seqqs_qt_cli pg opts)) ;;;
  seqqs_qt_stderr <- TemporaryFile ;;
  seqqs_qt_proc <- Popen (seqqs_qt_cli pg opts)
                         (proc_stdout sickle_proc) PIPE
                         (FileObj seqqs_qt_stderr) ;;
  stdout_close sickle_proc ;;;
  (* deinterleave *)
  Logger_info (CMD_LOG lg) (join_cli (deinterleave_cli pg opts)) ;;;
  deinterleave_stderr <- TemporaryFile ;;
  deinterleave_proc <- Popen (deinterleave_cli pg opts)
                             (proc_stdout seqqs_qt_proc) PIPE
                             (FileObj deinterleave_stderr) ;;
  stdout_close sickle_proc ;;;                                (* line 281 *)
  communicate deinterleave_proc ;;;
  print_result deinterleave_proc ;;;
  unlink unpaired_tmpfn.

End Knives.

(** ** Observations on a trace *)

#[global] Instance stream_eq_dec : EqDecision stream.
Proof. solve_decision. Defined.

(** A spawned child, as recorded by its [EPopen] operation. *)
Record proc : Type := mkProc {
  p_pid : nat;
  p_argv : list string;
  p_stdin : stream;
  p_stdout : stream;
  p_stderr : stream
}.

Definition as_proc (e : event) : option proc :=
  match e with
  | EPopen pid argv i o e' => Some (mkProc pid argv i o e')
  | _ => None
  end.

Definition is_popen (e : event) : bool :=
  match e with
  | EPopen _ _ _ _ _ => true
  | _ => false
  end.

(** The children of a run, in spawn order. *)
Definition spawned (tr : list event) : list proc := omap as_proc tr.

(** The executable of a child: [argv[0]]. *)
Definition program (p : proc) : string := hd "" (p_argv p).

(** The chained stages: the children spawned with [stdout=sp.PIPE]. *)
Definition chain (tr : list event) : list proc :=
  filter (fun p => p_stdout p = PIPE) (spawned tr).

(** Every child but the first reads the stdout of the child just
    before it in the list. *)
Fixpoint fed_by_previous (l : list proc) : bool :=
  match l with
  | a :: tl =>
      match tl with
      | b :: _ => bool_decide (p_stdin b = ProcStdout (p_pid a))
                  && fed_by_previous tl
      | [] => true
      end
  | [] => true
  end.

Definition is_close (up : nat) (e : event) : bool :=
  match e with
  | ECloseStdout p => Nat.eqb p up
  | _ => false
  end.

(** Whenever a child is spawned on the stdout of an earlier child, the
    parent later closes its own handle of that stdout. *)
Fixpoint closes_upstream (tr : list event) : bool :=
  match tr with
  | [] => true
  | EPopen _ _ (ProcStdout up) _ _ :: rest =>
      existsb (is_close up) rest && closes_upstream rest
  | _ :: rest => closes_upstream rest
  end.

(** The children whose stdout handle the parent closes, in order. *)
Definition closed_pids (tr : list event) : list nat :=
  omap (fun e => match e with ECloseStdout p => Some p | _ => None end) tr.

(** The five-stage reading of the pipeline: one process per tool role,
    in the order interleave, QC, adaptor trimming, quality trimming,
    de-interleave. *)
Definition five_stages (pg : Progs) : list string :=
  [ PAIRS pg; SEQQS pg; SCYTHE pg; SICKLE pg; PAIRS pg ].

(** Does any earlier child use file object [fh] for one of its streams? *)
Definition uses_file (fh : nat) (e : event) : bool :=
  match e with
  | EPopen _ _ i o e' =>
      bool_decide (i = FileObj fh) || bool_decide (o = FileObj fh)
      || bool_decide (e' = FileObj fh)
  | _ => false
  end.

(** [Q past e] holds of every operation [e] of the list, [past] being
    the operations before it. *)
Fixpoint each_with_past (Q : list event -> event -> Prop)
                        (past l : list event) : Prop :=
  match l with
  | [] => True
  | e :: l' => Q past e /\ each_with_past Q (past ++ [e]) l'
  end.

(** ** The trace of a complete run

    The operations of a run in which the log directory exists, the four
    tools [pg] are found and no library call fails. *)
Section Complete.

Variable env : Env.
Variable pg : Progs.
Variable opts : Opts.

Definition setup_trace : list event :=
  EFileHandler (cmd_lfn env opts)
  :: (if opt_S opts then [] else [EFileHandler (stderr_lfn env opts)])
  ++ [EFileHandler (summary_lfn env opts)].

Definition pipeline_trace : list event :=
  let log cli := ELog (cmd_lfn env opts) (join_cli cli) in
  [ EGzipOpen (opt_u opts) 0;
    EMkfifo (unpaired_tmpfn env);
    ETempFile 1;
    log (interleave_cli pg opts);
    EPopen 0 (interleave_cli pg opts) Inherit PIPE (FileObj 1);
    log (seqqs_il_cli env pg opts);
    ETempFile 2;
    EPopen 1 (seqqs_il_cli env pg opts) (ProcStdout 0) PIPE (FileObj 2);
    ECloseStdout 0;
    log (scythe_cli pg opts);
    ETempFile 3;
    EPopen 2 (scythe_cli pg opts) (ProcStdout 1) PIPE (FileObj 3);
    ECloseStdout 1;
    log (seqqs_na_cli env pg opts);
    ETempFile 4;
    EPopen 3 (seqqs_na_cli env pg opts) (ProcStdout 2) PIPE (FileObj 4);
    ECloseStdout 2;
    log (sickle_cli env pg opts);
    ETempFile 5;
    EPopen 4 (sickle_cli env pg opts) (ProcStdout 3) PIPE (FileObj 5);
    ECloseStdout 1;
    log (cat_cli env);
    ETempFile 6;
    EPopen 5 (cat_cli env) Inherit (FileObj 0) (FileObj 6);
    log (seqqs_qt_cli env pg opts);
    ETempFile 7;
    EPopen 6 (seqqs_qt_cli env pg opts) (ProcStdout 4) PIPE (FileObj 7);
    ECloseStdout 4;
    log (deinterleave_cli pg opts);
    ETempFile 8;
    EPopen 7 (deinterleave_cli pg opts) (ProcStdout 6) PIPE (FileObj 8);
    ECloseStdout 4;
    ECommunicate 7;
    EPrint 7;
    EUnlink (unpaired_tmpfn env) ].

Definition complete_trace : list event := setup_trace ++ pipeline_trace.

End Complete.

(** The four tools are found: each path comes from its option when the
    option is given and from the search otherwise, and names an
    executable regular file. *)
Definition found (env : Env) (given : option string) (name f : string)
  : Prop :=
  locate env given name = Some f /\ f <> "" /\
  isfile env f = true /\ access_X_OK env f = true.

Definition all_found (env : Env) (opts : Opts) (pg : Progs) : Prop :=
  found env (opt_K opts) "sickle" (SICKLE pg) /\
  found env (opt_C opts) "scythe" (SCYTHE pg) /\
  found env (opt_E opts) "seqqs" (SEQQS pg) /\
  found env (opt_P opts) "pairs" (PAIRS pg).

(** Two option sets that agree on everything but [-s]. *)
Definition differ_only_in_s (o1 o2 : Opts) : Prop :=
  with_s o1 None = with_s o2 None.

(** One of the four tools is missing, is not a regular file or is not
    executable. *)
Definition any_unusable (env : Env) (opts : Opts) : bool :=
  unusable env (locate env (opt_K opts) "sickle")
  || unusable env (locate env (opt_C opts) "scythe")
  || unusable env (locate env (opt_E opts) "seqqs")
  || unusable env (locate env (opt_P opts) "pairs").

(** A library call is atomic: from state [s] it either raises and
    leaves the state alone, or returns [a] in state [s1]. *)
Definition atomic {A} (m : M A) (s : state) (a : A) (s1 : state) : Prop :=
  forall r s', m s = (r, s') ->
    (exists e, r = Raised e /\ s' = s) \/ (r = Ok a /\ s' = s1).

(** How a run of [main] can end.  Either an exception is raised while
    the logs are set up or the tools are looked for, and nothing but
    log files has been touched; or the tools [pg] were found and the
    run went through an initial part [done] of the pipeline, all of it
    exactly when [main] returns. *)
Inductive run_result (env : Env) (opts : Opts)
  : outcome unit -> state -> Prop :=
  | run_early e s :
      trace s `prefix_of` setup_trace env opts ->
      ((exists lg s1, setup_logs env opts init = (Ok lg, s1)) ->
       any_unusable env opts = true /\ exists msg, e = RuntimeError msg) ->
      run_result env opts (Raised e) s
  | run_pipeline pg r s done :
      path_exists env (opt_L opts) = true ->
      all_found env opts pg ->
      trace s = setup_trace env opts ++ done ->
      done `prefix_of` pipeline_trace env pg opts ->
      (r = Ok tt ->
       done = pipeline_trace env pg opts /\
       open_stdout s = {[ 3 ]} ∪ {[ 6 ]}) ->
      run_result env opts r s.

(** ** Concrete runs

    The log directory is the current directory and no library call
    fails; [inst] lists the executable regular files, all of them in
    [/usr/bin], which is on the search path. *)
Definition mem_string (x : string) (l : list string) : bool :=
  existsb (String.eqb x) l.

Definition env_with (inst : list string) : Env :=
  mkEnv "2014-05-01_12:00:00" "/tmp"
        (fun p => String.eqb p ".")
        (fun p => mem_string p inst)
        (fun p => mem_string p inst)
        (fun name => if mem_string ("/usr/bin/" +:+ name) inst
                     then Some ("/usr/bin/" +:+ name) else None)
        (fun _ _ => false).

(** All four tools are installed. *)
Definition env0 : Env :=
  env_with [ "/usr/bin/sickle"; "/usr/bin/scythe"; "/usr/bin/seqqs";
             "/usr/bin/pairs" ].

(** [scythe] is not installed. *)
Definition env1 : Env :=
  env_with [ "/usr/bin/sickle"; "/usr/bin/seqqs"; "/usr/bin/pairs" ].

Definition progs0 : Progs :=
  mkProgs "/usr/bin/sickle" "/usr/bin/scythe" "/usr/bin/seqqs" "/usr/bin/pairs".

(** [knives.py -a adapters.fa -i r1.fq -I r2.fq -o o1.fq -O o2.fq
               -u unpaired.fq.gz -p run -r 0.3] *)
Definition opts0 : Opts :=
  mkOpts None None None None "20" "sanger" "40" None "." false false
         "adapters.fa" "r1.fq" "o1.fq" "r2.fq" "o2.fq" "unpaired.fq.gz"
         "run" "0.3".

(** The state in which that run ends. *)
Definition final0 : state := snd (main env0 opts0 init).

(** ** The script of a run

    A second description of what a run does: the operations of a list
    are performed in order until the operating system refuses one;
    logging a record and closing a pipe handle cannot be refused. *)

(** The operations whose primitive consults [os_fails]. *)
Definition fallible (e : event) : bool :=
  match e with
  | ELog _ _ | ECloseStdout _ => false
  | _ => true
  end.

(** Perform [ops] after [past], stopping with [OSError] at the first
    refusal; if none is refused go on with [k] on what has been done. *)
Fixpoint replay_then (env : Env) (ops past : list event)
                     (k : list event -> outcome unit * list event)
  : outcome unit * list event :=
  match ops with
  | [] => k past
  | e :: rest =>
      if fallible e && os_fails env past e then (Raised (OSError e), past)
      else replay_then env rest (past ++ [e]) k
  end.

Definition replay (env : Env) (ops past : list event)
  : outcome unit * list event :=
  replay_then env ops past (fun tr => (Ok tt, tr)).

(** What can be seen of a computation from outside: how it ended and
    what was done. *)
Definition observe {A} (x : outcome A * state) : outcome unit * list event :=
  (match fst x with
   | Ok _ => Ok tt
   | Raised e => Raised e
   end, trace (snd x)).

(** [main] as a script: the directory check, the opening of the logs,
    the tool lookup, then the pipeline. *)
Definition main_script (env : Env) (opts : Opts)
  : outcome unit * list event :=
  if negb (path_exists env (opt_L opts)) then
    (Raised (RuntimeError "Log directory not found."), [])
  else
    replay_then env (setup_trace env opts) []
      (fun tr =>
         match fst (find_progs env opts init) with
         | Ok pg => replay env (pipeline_trace env pg opts) tr
         | Raised e => (Raised e, tr)
         end).

(** The records written to log files, as (file, message), in order. *)
Definition logged (tr : list event) : list (string * string) :=
  omap (fun e => match e with ELog p m => Some (p, m) | _ => None end) tr.

Definition is_unlink (e : event) : bool :=
  match e with
  | EUnlink _ => true
  | _ => false
  end.

Definition is_filehandler (e : event) : bool :=
  match e with
  | EFileHandler _ => true
  | _ => false
  end.

(** Functional updates of [-S] and of the four tool options. *)
Definition with_S (o : Opts) (v : bool) : Opts :=
  mkOpts (opt_K o) (opt_C o) (opt_E o) (opt_P o) (opt_q o) (opt_t o)
         (opt_l o) (opt_s o) (opt_L o) v (opt_n o) (opt_a o) (opt_i o)
         (opt_o o) (opt_I o) (opt_O o) (opt_u o) (opt_p o) (opt_r o).

Definition with_tools (o : Opts) (k c e p : option string) : Opts :=
  mkOpts k c e p (opt_q o) (opt_t o)
         (opt_l o) (opt_s o) (opt_L o) (opt_S o) (opt_n o) (opt_a o)
         (opt_i o) (opt_o o) (opt_I o) (opt_O o) (opt_u o) (opt_p o)
         (opt_r o).

(** Two option sets that agree on everything but the tool options and
    for which the same four paths are looked at. *)
Definition same_tools_located (env : Env) (o1 o2 : Opts) : Prop :=
  with_tools o1 None None None None = with_tools o2 None None None None /\
  locate env (opt_K o1) "sickle" = locate env (opt_K o2) "sickle" /\
  locate env (opt_C o1) "scythe" = locate env (opt_C o2) "scythe" /\
  locate env (opt_E o1) "seqqs" = locate env (opt_E o2) "seqqs" /\
  locate env (opt_P o1) "pairs" = locate env (opt_P o2) "pairs".

(** An environment in which no library call is refused. *)
Definition never_refuses (env : Env) : Prop :=
  forall past e, os_fails env past e = false.

(** The log directory is missing. *)
Definition env2 : Env :=
  mkEnv "2014-05-01_12:00:00" "/tmp" (fun _ => false)
        (isfile env0) (access_X_OK env0) (find_executable env0)
        (fun _ _ => false).

(** All tools are installed, but [os.mkfifo] is refused. *)
Definition env3 : Env :=
  mkEnv "2014-05-01_12:00:00" "/tmp" (path_exists env0)
        (isfile env0) (access_X_OK env0) (find_executable env0)
        (fun _ e => match e with EMkfifo _ => true | _ => false end).

(** [pairs] is not installed. *)
Definition env4 : Env :=
  env_with [ "/usr/bin/sickle"; "/usr/bin/scythe"; "/usr/bin/seqqs" ].

(** None of the operations [ops], performed after [past], is refused. *)
Definition accepted (env : Env) (past ops : list event) : Prop :=
  forall l1 e l2,
    ops = l1 ++ e :: l2 -> fallible e = true ->
    os_fails env (past ++ l1) e = false.

(** Child [up] is spawned with a pipe as its stdout. *)
Definition is_pipe_source (up : nat) (e : event) : bool :=
  match e with
  | EPopen p _ _ PIPE _ => Nat.eqb p up
  | _ => false
  end.

(** A child is spawned that reads the stdout of child [up]. *)
Definition reads_from (up : nat) (e : event) : bool :=
  match e with
  | EPopen _ _ (ProcStdout p) _ _ => Nat.eqb p up
  | _ => false
  end.

(** The parent waits for child [up]. *)
Definition is_wait (up : nat) (e : event) : bool :=
  match e with
  | ECommunicate p => Nat.eqb p up
  | _ => false
  end.

(** * Properties *)

(** ** Stepping through the monad *)
Section Steps.

Variable env : Env.

Lemma bind_cases {A B} (m : M A) (k : A -> M B) s r s' :
  bind m k s = (r, s') ->
  (exists e, m s = (Raised e, s') /\ r = Raised e) \/
  (exists a s1, m s = (Ok a, s1) /\ k a s1 = (r, s')).
Proof.
  unfold bind. destruct (m s) as [[a|e] s1]; intros H.
  - right. eauto.
  - left. inversion H; subst. eauto.
Qed.

Lemma step {A B} (m : M A) (k : A -> M B) s a s1 r s' :
  atomic m s a s1 ->
  bind m k s = (r, s') ->
  (exists e, r = Raised e /\ s' = s) \/ k a s1 = (r, s').
Proof.
  intros Hm H. apply bind_cases in H as [(e & H & ->) | (a' & s2 & H & Hk)].
  - left. apply Hm in H as [(e' & He & ->) | (He & _)]; [eauto | discriminate].
  - apply Hm in H as [(e' & He & _) | (He & ->)]; [discriminate |].
    right. inversion He; subst. exact Hk.
Qed.

Lemma perform_atomic e T l fh pid op :
  atomic (perform env e) (mkState (T ++ l) fh pid op) tt
         (mkState (T ++ (l ++ [e])) fh pid op).
Proof.
  intros r s'. unfold perform, push; cbn [trace next_fh next_pid open_stdout].
  rewrite <- app_assoc.
  destruct (os_fails env _ e); intros H; inversion H; subst; eauto.
Qed.

Lemma FileHandler_atomic p lvl T l fh pid op :
  atomic (logging_FileHandler env p lvl) (mkState (T ++ l) fh pid op)
         (FileHandler p lvl) (mkState (T ++ (l ++ [EFileHandler p])) fh pid op).
Proof.
  intros r s' H. unfold logging_FileHandler in H.
  apply (step _ _ _ _ _ _ _ (perform_atomic _ T l fh pid op)) in H
    as [H | H]; [left; exact H | right].
  inversion H; subst. auto.
Qed.

Lemma gzip_open_atomic p T l fh pid op :
  atomic (gzip_open env p) (mkState (T ++ l) fh pid op) fh
         (mkState (T ++ (l ++ [EGzipOpen p fh])) (S fh) pid op).
Proof.
  intros r s'. unfold gzip_open; cbn [trace next_fh next_pid open_stdout].
  rewrite <- app_assoc.
  destruct (os_fails env _ _); intros H; inversion H; subst; eauto.
Qed.

Lemma TemporaryFile_atomic T l fh pid op :
  atomic (TemporaryFile env) (mkState (T ++ l) fh pid op) fh
         (mkState (T ++ (l ++ [ETempFile fh])) (S fh) pid op).
Proof.
  intros r s'. unfold TemporaryFile; cbn [trace next_fh next_pid open_stdout].
  rewrite <- app_assoc.
  destruct (os_fails env _ _); intros H; inversion H; subst; eauto.
Qed.

Lemma Popen_atomic argv i o e T l fh pid op :
  atomic (Popen env argv i o e) (mkState (T ++ l) fh pid op) pid
         (mkState (T ++ (l ++ [EPopen pid argv i o e])) fh (S pid)
                  (match o with PIPE => {[ pid ]} ∪ op | _ => op end)).
Proof.
  intros r s'. unfold Popen; cbn [trace next_fh next_pid open_stdout].
  rewrite <- app_assoc.
  destruct (stream_closed _ i); [intros H; inversion H; subst; eauto |].
  destruct (os_fails env _ _); intros H; inversion H; subst; eauto.
Qed.

Lemma communicate_atomic p T l fh pid op :
  atomic (communicate env p) (mkState (T ++ l) fh pid op) tt
         (mkState (T ++ (l ++ [ECommunicate p])) fh pid (op ∖ {[ p ]})).
Proof.
  intros r s'. unfold communicate; cbn [trace next_fh next_pid open_stdout].
  rewrite <- app_assoc.
  destruct (os_fails env _ _); intros H; inversion H; subst; eauto.
Qed.

Lemma stdout_close_atomic p T l fh pid op :
  atomic (stdout_close p) (mkState (T ++ l) fh pid op) tt
         (mkState (T ++ (l ++ [ECloseStdout p])) fh pid (op ∖ {[ p ]})).
Proof.
  intros r s'. unfold stdout_close; cbn [trace next_fh next_pid open_stdout].
  rewrite <- app_assoc. intros H; inversion H; subst; eauto.
Qed.

Lemma Logger_info_atomic p msg T l fh pid op :
  atomic (Logger_info (mkLogger "knives_cmds" INFO [FileHandler p INFO]) msg)
         (mkState (T ++ l) fh pid op) tt
         (mkState (T ++ (l ++ [ELog p msg])) fh pid op).
Proof.
  intros r s'. unfold Logger_info, Logger_log.
  cbn [trace next_fh next_pid open_stdout].
  rewrite <- app_assoc. intros H; inversion H; subst; eauto.
Qed.

End Steps.

Ltac atomic_lemma :=
  first [ apply FileHandler_atomic | apply perform_atomic
        | apply gzip_open_atomic | apply TemporaryFile_atomic
        | apply Popen_atomic | apply communicate_atomic
        | apply stdout_close_atomic | apply Logger_info_atomic ].

Section Runs.

Variable env : Env.

(** ** [find_progs] *)

Lemma require_prog_cases p msg s r s' :
  require_prog env p msg s = (r, s') ->
  s' = s /\
  ((r = Raised (RuntimeError msg) /\ unusable env p = true) \/
   (exists f, r = Ok f /\ p = Some f /\ unusable env p = false)).
Proof.
  unfold require_prog. destruct p as [f|].
  - destruct (unusable env (Some f)) eqn:E; intros H; inversion H; subst;
      split; eauto.
  - intros H; inversion H; subst. split; auto.
Qed.

Lemma usable_found given name f :
  locate env given name = Some f ->
  unusable env (Some f) = false ->
  found env given name f.
Proof.
  unfold unusable, found, truthy. intros Hl Hu.
  apply orb_false_elim in Hu as [Ht Hx].
  apply negb_false_iff in Ht, Hx. apply negb_true_iff in Ht.
  apply andb_true_iff in Hx as [Hf Ha].
  repeat split; auto.
  intros ->. discriminate.
Qed.

Lemma found_usable given name f :
  found env given name f -> unusable env (locate env given name) = false.
Proof.
  intros (-> & Hne & Hf & Ha). unfold unusable, truthy.
  rewrite Hf, Ha. destruct (String.eqb_spec f ""); [contradiction | reflexivity].
Qed.

Lemma all_found_usable o pg : all_found env o pg -> any_unusable env o = false.
Proof.
  intros (H1 & H2 & H3 & H4). unfold any_unusable.
  rewrite (found_usable _ _ _ H1), (found_usable _ _ _ H2),
          (found_usable _ _ _ H3), (found_usable _ _ _ H4). reflexivity.
Qed.

Lemma find_progs_cases o s r s' :
  find_progs env o s = (r, s') ->
  s' = s /\
  ((exists msg, r = Raised (RuntimeError msg) /\ any_unusable env o = true) \/
   (exists pg, r = Ok pg /\ all_found env o pg)).
Proof.
  unfold find_progs, any_unusable. intros H.
  apply bind_cases in H as [(e & H & ->) | (f1 & s1 & H1 & H)].
  { apply require_prog_cases in H as (-> & [(He & Hu) | (f & He & _)]);
      [| discriminate].
    inversion He; subst. rewrite Hu. split; eauto. }
  apply require_prog_cases in H1 as (-> & [(He & _) | (f & He & Hl1 & Hu1)]);
    [discriminate |].
  inversion He; subst f; clear He. rewrite Hl1 in Hu1.
  apply bind_cases in H as [(e & H & ->) | (f2 & s2 & H2 & H)].
  { apply require_prog_cases in H as (-> & [(He & Hu) | (f & He & _)]);
      [| discriminate].
    inversion He; subst. rewrite Hu, orb_true_r. split; eauto. }
  apply require_prog_cases in H2 as (-> & [(He & _) | (f & He & Hl2 & Hu2)]);
    [discriminate |].
  inversion He; subst f; clear He. rewrite Hl2 in Hu2.
  apply bind_cases in H as [(e & H & ->) | (f3 & s3 & H3 & H)].
  { apply require_prog_cases in H as (-> & [(He & Hu) | (f & He & _)]);
      [| discriminate].
    inversion He; subst. rewrite Hu, orb_true_r. split; eauto. }
  apply require_prog_cases in H3 as (-> & [(He & _) | (f & He & Hl3 & Hu3)]);
    [discriminate |].
  inversion He; subst f; clear He. rewrite Hl3 in Hu3.
  apply bind_cases in H as [(e & H & ->) | (f4 & s4 & H4 & H)].
  { apply require_prog_cases in H as (-> & [(He & Hu) | (f & He & _)]);
      [| discriminate].
    inversion He; subst. rewrite Hu, orb_true_r. split; eauto. }
  apply require_prog_cases in H4 as (-> & [(He & _) | (f & He & Hl4 & Hu4)]);
    [discriminate |].
  inversion He; subst f; clear He. rewrite Hl4 in Hu4.
  inversion H; subst. split; auto. right.
  exists (mkProgs f1 f2 f3 f4). split; auto.
  repeat split; cbn [SICKLE SCYTHE SEQQS PAIRS];
    try (eapply usable_found; eassumption).
  all: eapply usable_found; eauto.
Qed.

(** ** [setup_logs] *)

Lemma setup_logs_cases o r s :
  setup_logs env o init = (r, s) ->
  (exists e, r = Raised e /\ trace s `prefix_of` setup_trace env o) \/
  (path_exists env (opt_L o) = true /\
   (exists lg, r = Ok lg /\
      CMD_LOG lg = mkLogger "knives_cmds" INFO [FileHandler (cmd_lfn env o) INFO]) /\
   s = mkState (setup_trace env o ++ []) 0 0 ∅).
Proof.
  unfold setup_logs, setup_trace, init.
  destruct (path_exists env (opt_L o)); cbn [negb].
  2:{ intros H; inversion H; subst. left. eexists; split; eauto.
      cbn [trace]. apply prefix_nil. }
  intros H.
  eapply step in H; [| apply (FileHandler_atomic env _ _ [] [] 0 0 ∅) ].
  destruct H as [(e & -> & ->) | H].
  { left. eexists; split; eauto. apply prefix_nil. }
  cbn [app] in H.
  destruct (opt_S o); cbn [negb] in H.
  - (* -S: no stderr log file *)
    apply bind_cases in H as [(e & H & _) | (hs & s1 & H1 & H)];
      [discriminate |].
    inversion H1; subst hs s1; clear H1.
    eapply step in H; [| apply (FileHandler_atomic env _ _ []) ].
    destruct H as [(e & -> & ->) | H].
    { left. eexists; split; eauto. cbn [trace app].
      eexists; reflexivity. }
    cbn [app] in H. inversion H; subst. right.
    rewrite app_nil_r. cbn [app]. repeat split; eauto.
  - apply bind_cases in H as [(e & H & ->) | (hs & s1 & H1 & H)].
    { eapply step in H; [| apply (FileHandler_atomic env _ _ []) ].
      destruct H as [(e' & He & ->) | H]; [| discriminate].
      left. eexists; split; eauto. cbn [trace app]. eexists; reflexivity. }
    eapply step in H1; [| apply (FileHandler_atomic env _ _ []) ].
    destruct H1 as [(e' & He & _) | H1]; [discriminate |].
    cbn [app] in H1. inversion H1; subst hs s1; clear H1.
    eapply step in H; [| apply (FileHandler_atomic env _ _ []) ].
    destruct H as [(e & -> & ->) | H].
    { left. eexists; split; eauto. cbn [trace app]. eexists; reflexivity. }
    cbn [app] in H. inversion H; subst. right.
    rewrite app_nil_r. cbn [app]. repeat split; eauto.
Qed.

End Runs.

(** A failure inside the pipeline: the run stops where it is. *)
Ltac stops_here :=
  eapply run_pipeline;
  [ eassumption | eassumption | reflexivity
  | unfold pipeline_trace; eexists; reflexivity
  | discriminate ].

Ltac step_in H :=
  eapply step in H; [| atomic_lemma ];
  destruct H as [(? & -> & ->) | H]; [ stops_here | cbn [app] in H ].

Section Main.

Variable env : Env.

Lemma final_open_stdout :
  (({[7]} ∪ (({[6]} ∪ (({[4]} ∪ (({[3]} ∪ (({[2]} ∪ (({[1]} ∪ (({[0]} ∪ ∅)
     ∖ {[0]})) ∖ {[1]})) ∖ {[2]})) ∖ {[1]})) ∖ {[4]})) ∖ {[4]})) ∖ {[7]}
   : gset nat) = {[3]} ∪ {[6]}.
Proof. vm_compute. reflexivity. Qed.

Theorem main_run o r s :
  main env o init = (r, s) -> run_result env o r s.
Proof.
  unfold main. intros H.
  apply bind_cases in H as [(e & H & ->) | (lg & s1 & Hlog & H)].
  { (* setup_logs raised *)
    pose proof H as H0.
    apply setup_logs_cases in H as [(e' & He & Hp) | (_ & (lg & He & _) & _)];
      [| discriminate].
    inversion He; subst e'. apply run_early; [exact Hp |].
    intros (lg & s1 & Hok). rewrite H0 in Hok. discriminate. }
  pose proof Hlog as Hlog0.
  apply setup_logs_cases in Hlog
    as [(e' & He & _) | (HL & (lg' & He & Hcmd) & ->)]; [discriminate |].
  inversion He; subst lg'; clear He.
  apply bind_cases in H as [(e & H & ->) | (pg & s2 & Hpg & H)].
  { (* find_progs raised *)
    apply find_progs_cases in H as (-> & [(msg & He & Hu) | (pg & He & _)]);
      [| discriminate].
    inversion He; subst e. apply run_early.
    - cbn [trace]. rewrite app_nil_r. reflexivity.
    - intros _. split; eauto. }
  apply find_progs_cases in Hpg as (-> & [(msg & He & _) | (pg' & He & Hfound)]);
    [discriminate |].
  inversion He; subst pg'; clear He Hlog0.
  rewrite Hcmd in H. clear Hcmd lg.
  repeat step_in H.
  eapply perform_atomic in H. cbn [app] in H.
  destruct H as [(? & -> & ->) | (-> & ->)]; [stops_here |].
  eapply run_pipeline; [eassumption | eassumption | reflexivity |
                        reflexivity | intros _ ].
  split; [reflexivity |]. cbn [open_stdout]. apply final_open_stdout.
Qed.

End Main.

(** ** Consequences of [main_run] *)
Section Consequences.

Variable env : Env.

(** A run that returns went through the whole pipeline. *)
Lemma main_returns o s :
  main env o init = (Ok tt, s) ->
  exists pg, path_exists env (opt_L o) = true /\ all_found env o pg /\
             trace s = complete_trace env pg o /\
             open_stdout s = {[ 3 ]} ∪ {[ 6 ]}.
Proof.
  intros H. apply main_run in H. inversion H as [| pg r s' l HL Hf Ht Hp Hok]; subst.
  destruct (Hok eq_refl) as [-> Hopen].
  exists pg. repeat split; auto; apply Hf.
Qed.

Lemma each_with_past_split Q past l :
  each_with_past Q past l ->
  forall l1 e l2, l = l1 ++ e :: l2 -> Q (past ++ l1) e.
Proof.
  revert past. induction l as [| x l IH]; intros past H l1 e l2 E.
  - destruct l1; discriminate.
  - destruct H as [Hx Hl]. destruct l1 as [| y l1]; cbn [app] in E.
    + inversion E; subst. rewrite app_nil_r. exact Hx.
    + inversion E; subst.
      replace (past ++ y :: l1) with ((past ++ [y]) ++ l1)
        by (rewrite <- app_assoc; reflexivity).
      eapply IH; eauto.
Qed.

(** A property of every operation and its past that holds along the
    complete trace holds in every run, however it ends. *)
Lemma run_invariant o (Q : list event -> event -> Prop) :
  (forall pg, each_with_past Q [] (complete_trace env pg o)) ->
  forall l1 e l2,
    trace (snd (main env o init)) = l1 ++ e :: l2 -> Q l1 e.
Proof.
  intros HQ l1 e l2 E.
  destruct (main env o init) as [r s] eqn:Hrun. cbn [snd] in E.
  apply main_run in Hrun.
  assert (exists pg, trace s `prefix_of` complete_trace env pg o) as (pg & k & Hk).
  { inversion Hrun as [e' s' Hp _ | pg r' s' l _ _ Ht Hp _]; subst.
    - exists (mkProgs "" "" "" ""). unfold complete_trace.
      apply prefix_app_r. exact Hp.
    - exists pg. rewrite Ht. unfold complete_trace. apply prefix_app, Hp. }
  specialize (HQ pg). rewrite Hk, E in HQ.
  apply (each_with_past_split Q [] _ HQ l1 e (l2 ++ k)).
  rewrite <- app_assoc. reflexivity.
Qed.

(** The children of a complete run. *)
Lemma spawned_complete pg o :
  spawned (complete_trace env pg o) =
  [ mkProc 0 (interleave_cli pg o) Inherit PIPE (FileObj 1);
    mkProc 1 (seqqs_il_cli env pg o) (ProcStdout 0) PIPE (FileObj 2);
    mkProc 2 (scythe_cli pg o) (ProcStdout 1) PIPE (FileObj 3);
    mkProc 3 (seqqs_na_cli env pg o) (ProcStdout 2) PIPE (FileObj 4);
    mkProc 4 (sickle_cli env pg o) (ProcStdout 3) PIPE (FileObj 5);
    mkProc 5 (cat_cli env) Inherit (FileObj 0) (FileObj 6);
    mkProc 6 (seqqs_qt_cli env pg o) (ProcStdout 4) PIPE (FileObj 7);
    mkProc 7 (deinterleave_cli pg o) (ProcStdout 6) PIPE (FileObj 8) ].
Proof.
  unfold complete_trace, setup_trace. destruct (opt_S o); reflexivity.
Qed.

Lemma chain_complete pg o :
  chain (complete_trace env pg o) =
  [ mkProc 0 (interleave_cli pg o) Inherit PIPE (FileObj 1);
    mkProc 1 (seqqs_il_cli env pg o) (ProcStdout 0) PIPE (FileObj 2);
    mkProc 2 (scythe_cli pg o) (ProcStdout 1) PIPE (FileObj 3);
    mkProc 3 (seqqs_na_cli env pg o) (ProcStdout 2) PIPE (FileObj 4);
    mkProc 4 (sickle_cli env pg o) (ProcStdout 3) PIPE (FileObj 5);
    mkProc 6 (seqqs_qt_cli env pg o) (ProcStdout 4) PIPE (FileObj 7);
    mkProc 7 (deinterleave_cli pg o) (ProcStdout 6) PIPE (FileObj 8) ].
Proof.
  unfold chain. rewrite spawned_complete. reflexivity.
Qed.


(** In every run the children spawned are an initial part of those of
    a complete run. *)
Lemma spawned_run_prefix o :
  exists pg, spawned (trace (snd (main env o init)))
             `prefix_of` spawned (complete_trace env pg o).
Proof.
  destruct (main env o init) as [r s] eqn:Hrun. cbn [snd].
  apply main_run in Hrun.
  inversion Hrun as [e' s' [k Hk] _ | pg r' s' l _ _ Ht [k Hk] _]; subst.
  - exists (mkProgs "" "" "" ""). unfold complete_trace, spawned.
    exists (omap as_proc (k ++ pipeline_trace env (mkProgs "" "" "" "") o)).
    rewrite Hk, <- app_assoc, omap_app. reflexivity.
  - exists pg. unfold complete_trace, spawned.
    exists (omap as_proc k).
    rewrite Ht, Hk, !omap_app, app_assoc. reflexivity.
Qed.

Lemma fed_by_previous_prefix l k :
  fed_by_previous (l ++ k) = true -> fed_by_previous l = true.
Proof.
  induction l as [| a l IH]; [reflexivity |].
  destruct l as [| b l]; [reflexivity |].
  cbn [app fed_by_previous] in *. intros H.
  apply andb_true_iff in H as [H1 H2].
  apply andb_true_iff. split; [exact H1 | exact (IH H2)].
Qed.



End Consequences.

(** ** Observations on the complete trace *)

Lemma closed_pids_complete env pg o :
  closed_pids (complete_trace env pg o) = [0; 1; 2; 1; 4; 4].
Proof.
  unfold complete_trace, setup_trace. destruct (opt_S o); reflexivity.
Qed.

Lemma closes_upstream_complete env pg o :
  closes_upstream (complete_trace env pg o) = false.
Proof.
  unfold complete_trace, setup_trace. destruct (opt_S o); reflexivity.
Qed.

(** Membership in an explicit list of operations. *)
Ltac in_list := repeat constructor.

(** Walk along the complete trace, one operation at a time. *)
Ltac along_trace tac :=
  unfold complete_trace, setup_trace, pipeline_trace;
  match goal with |- context [opt_S ?o] => destruct (opt_S o) end;
  cbn [each_with_past app];
  repeat match goal with |- _ /\ _ => split end;
  try exact I; tac.

(** ** The two concrete runs, evaluated *)

Example run0_children :
  spawned (trace final0) =
  [ mkProc 0 ["/usr/bin/pairs"; "join"; "-t"; "r1.fq"; "r2.fq"]
           Inherit PIPE (FileObj 1);
    mkProc 1 ["/usr/bin/seqqs"; "-i"; "-e"; "-q"; "20"; "-p";
              "run_initial_2014-05-01_12:00:00"; "-"]
           (ProcStdout 0) PIPE (FileObj 2);
    mkProc 2 ["/usr/bin/scythe"; "-p"; "0.3"; "-a"; "adapters.fa"; "-M";
              "0"; "-"]
           (ProcStdout 1) PIPE (FileObj 3);
    mkProc 3 ["/usr/bin/seqqs"; "-i"; "-e"; "-q"; "20"; "-p";
              "run_noadapt_2014-05-01_12:00:00"; "-"]
           (ProcStdout 2) PIPE (FileObj 4);
    mkProc 4 ["/usr/bin/sickle"; "pe"; "-t"; "20"; "-c"; "/dev/stdin";
              "-m"; "/dev/stdout"; "-s";
              "/tmp/unpaired_2014-05-01_12:00:00"; "-q"; "20"; "-l"; "40"]
           (ProcStdout 3) PIPE (FileObj 5);
    mkProc 5 ["cat"; "/tmp/unpaired_2014-05-01_12:00:00"]
           Inherit (FileObj 0) (FileObj 6);
    mkProc 6 ["/usr/bin/seqqs"; "-i"; "-e"; "-q"; "20"; "-p";
              "run_qualtrim_2014-05-01_12:00:00"; "-"]
           (ProcStdout 4) PIPE (FileObj 7);
    mkProc 7 ["/usr/bin/pairs"; "split"; "-1"; "o1.fq"; "-2"; "o2.fq";
              "-u"; "unpaired.fq.gz"; "-"]
           (ProcStdout 6) PIPE (FileObj 8) ].
Proof. vm_compute. reflexivity. Qed.

Example run0_other_operations :
  filter (fun e => is_popen e = false) (trace final0) =
  [ EFileHandler "./run_cmds_2014-05-01_12:00:00.log";
    EFileHandler "./run_stderrs_2014-05-01_12:00:00.log";
    EFileHandler "./run_summary_2014-05-01_12:00:00.log";
    EGzipOpen "unpaired.fq.gz" 0;
    EMkfifo "/tmp/unpaired_2014-05-01_12:00:00";
    ETempFile 1;
    ELog "./run_cmds_2014-05-01_12:00:00.log"
         "/usr/bin/pairs join -t r1.fq r2.fq";
    ELog "./run_cmds_2014-05-01_12:00:00.log"
         "/usr/bin/seqqs -i -e -q 20 -p run_initial_2014-05-01_12:00:00 -";
    ETempFile 2;
    ECloseStdout 0;
    ELog "./run_cmds_2014-05-01_12:00:00.log"
         "/usr/bin/scythe -p 0.3 -a adapters.fa -M 0 -";
    ETempFile 3;
    ECloseStdout 1;
    ELog "./run_cmds_2014-05-01_12:00:00.log"
         "/usr/bin/seqqs -i -e -q 20 -p run_noadapt_2014-05-01_12:00:00 -";
    ETempFile 4;
    ECloseStdout 2;
    ELog "./run_cmds_2014-05-01_12:00:00.log"
         "/usr/bin/sickle pe -t 20 -c /dev/stdin -m /dev/stdout -s /tmp/unpaired_2014-05-01_12:00:00 -q 20 -l 40";
    ETempFile 5;
    ECloseStdout 1;
    ELog "./run_cmds_2014-05-01_12:00:00.log"
         "cat /tmp/unpaired_2014-05-01_12:00:00";
    ETempFile 6;
    ELog "./run_cmds_2014-05-01_12:00:00.log"
         "/usr/bin/seqqs -i -e -q 20 -p run_qualtrim_2014-05-01_12:00:00 -";
    ETempFile 7;
    ECloseStdout 4;
    ELog "./run_cmds_2014-05-01_12:00:00.log"
         "/usr/bin/pairs split -1 o1.fq -2 o2.fq -u unpaired.fq.gz -";
    ETempFile 8;
    ECloseStdout 4;
    ECommunicate 7;
    EPrint 7;
    EUnlink "/tmp/unpaired_2014-05-01_12:00:00" ].
Proof. vm_compute. reflexivity. Qed.

Example run1_raises :
  main env1 opts0 init =
  (Raised (RuntimeError "Can't find scythe"),
   mkState [ EFileHandler "./run_cmds_2014-05-01_12:00:00.log";
             EFileHandler "./run_stderrs_2014-05-01_12:00:00.log";
             EFileHandler "./run_summary_2014-05-01_12:00:00.log" ]
           0 0 ∅).
Proof. vm_compute. reflexivity. Qed.

(** ** The pipeline: order, wiring and stream closure *)

(** C1, as stated, fails: in the concrete run the children are not the
    five-stage sequence pairs, seqqs, scythe, sickle, pairs, neither
    among all children nor among the chained ones, and it is not true
    that every child reads the stdout of the child spawned just before
    it ([cat] sits between [sickle] and the last [seqqs]). *)
Lemma C1_counterexample :
  fst (main env0 opts0 init) = Ok tt /\
  map program (spawned (trace final0)) <> five_stages progs0 /\
  map program (chain (trace final0)) <> five_stages progs0 /\
  fed_by_previous (spawned (trace final0)) = false.
Proof.
  repeat split; try (vm_compute; reflexivity);
    vm_compute; intros H; discriminate H.
Qed.

(** C1, amended: in every run of [main], however it ends, the chained
    stages spawned so far are an initial part of the fixed sequence
    pairs join, seqqs, scythe, seqqs, sickle, seqqs, pairs split, and
    each of them after the first reads the stdout of the chained stage
    before it.  In every run that returns all seven are spawned, the
    first of them inheriting the parent's stdin; the [cat] copier is
    spawned between [sickle] and the third [seqqs] and is not part of
    the chain. *)
Theorem C1_pipeline_order env o :
  (exists pg,
     map (fun p => take 2 (p_argv p))
         (chain (trace (snd (main env o init))))
     `prefix_of` [ [PAIRS pg; "join"]; [SEQQS pg; "-i"]; [SCYTHE pg; "-p"];
                   [SEQQS pg; "-i"]; [SICKLE pg; "pe"]; [SEQQS pg; "-i"];
                   [PAIRS pg; "split"] ]) /\
  fed_by_previous (chain (trace (snd (main env o init)))) = true /\
  (forall s,
     main env o init = (Ok tt, s) ->
     exists pg,
       all_found env o pg /\
       map (fun p => take 2 (p_argv p)) (chain (trace s)) =
         [ [PAIRS pg; "join"]; [SEQQS pg; "-i"]; [SCYTHE pg; "-p"];
           [SEQQS pg; "-i"]; [SICKLE pg; "pe"]; [SEQQS pg; "-i"];
           [PAIRS pg; "split"] ] /\
       (p_stdin <$> head (chain (trace s))) = Some Inherit /\
       map program (spawned (trace s)) =
         [ PAIRS pg; SEQQS pg; SCYTHE pg; SEQQS pg; SICKLE pg; "cat";
           SEQQS pg; PAIRS pg ] /\
       map p_pid (spawned (trace s)) = [0; 1; 2; 3; 4; 5; 6; 7] /\
       map p_stdin (spawned (trace s)) =
         [ Inherit; ProcStdout 0; ProcStdout 1; ProcStdout 2; ProcStdout 3;
           Inherit; ProcStdout 4; ProcStdout 6 ]).
Proof.
  assert (Hchain : exists pg k,
            chain (complete_trace env pg o) =
            chain (trace (snd (main env o init))) ++ k).
  { destruct (spawned_run_prefix env o) as (pg & k & Hk).
    exists pg, (filter (fun p => p_stdout p = PIPE) k).
    unfold chain. rewrite <- filter_app, <- Hk. reflexivity. }
  destruct Hchain as (pg & k & Hk).
  split; [| split].
  - exists pg, (map (fun p => take 2 (p_argv p)) k).
    rewrite <- map_app, <- Hk, chain_complete. reflexivity.
  - apply (fed_by_previous_prefix _ k). rewrite <- Hk, chain_complete.
    reflexivity.
  - intros s H. apply main_returns in H as (pg' & _ & Hf & -> & _).
    exists pg'. rewrite chain_complete, spawned_complete.
    repeat split; try exact Hf; try apply Hf.
Qed.

Lemma C1_pipeline_order_witness :
  main env0 opts0 init = (Ok tt, final0) /\
  map p_pid (spawned (trace final0)) = [0; 1; 2; 3; 4; 5; 6; 7].
Proof.
  assert (H : main env0 opts0 init = (Ok tt, final0))
    by (vm_compute; reflexivity).
  split; [exact H |].
  destruct (proj2 (proj2 (C1_pipeline_order env0 opts0)) final0 H)
    as (pg & _ & _ & _ & _ & Hpid & _).
  exact Hpid.
Defined.

(** C2 fails on the code: in every run that returns, [sickle] (child
    4) is spawned on the stdout of the second [seqqs] (child 3) and
    pairs split (child 7) on the stdout of the third [seqqs] (child 6),
    but the parent never closes its handles of those two stdouts.  It
    closes the stdout of children 1 and 4 a second time instead, and
    returns with the handles of 3 and 6 still open. *)
Theorem C2_upstream_left_open env o s :
  main env o init = (Ok tt, s) ->
  closes_upstream (trace s) = false /\
  map p_stdin (chain (trace s)) =
    [ Inherit; ProcStdout 0; ProcStdout 1; ProcStdout 2; ProcStdout 3;
      ProcStdout 4; ProcStdout 6 ] /\
  closed_pids (trace s) = [0; 1; 2; 1; 4; 4] /\
  (ECloseStdout 3 ∉ trace s) /\
  (ECloseStdout 6 ∉ trace s) /\
  open_stdout s = {[ 3 ]} ∪ {[ 6 ]}.
Proof.
  intros H. apply main_returns in H as (pg & _ & Hf & Ht & Hopen).
  assert (Hnot : forall p, p ∉ [0; 1; 2; 1; 4; 4] ->
                           ECloseStdout p ∉ trace s).
  { intros p Hp Hin. apply Hp.
    rewrite <- (closed_pids_complete env pg o), <- Ht.
    unfold closed_pids. apply list_elem_of_omap.
    exists (ECloseStdout p). split; [exact Hin | reflexivity]. }
  rewrite Ht in Hnot |- *.
  rewrite closes_upstream_complete, chain_complete, closed_pids_complete.
  repeat split; auto.
  - apply Hnot. intros Hin. repeat (apply elem_of_cons in Hin as [Hin | Hin];
      [discriminate |]). inversion Hin.
  - apply Hnot. intros Hin. repeat (apply elem_of_cons in Hin as [Hin | Hin];
      [discriminate |]). inversion Hin.
Qed.

Lemma C2_upstream_left_open_witness :
  main env0 opts0 init = (Ok tt, final0) /\
  closes_upstream (trace final0) = false /\
  closed_pids (trace final0) = [0; 1; 2; 1; 4; 4].
Proof.
  assert (H : main env0 opts0 init = (Ok tt, final0))
    by (vm_compute; reflexivity).
  split; [exact H |].
  destruct (C2_upstream_left_open env0 opts0 final0 H)
    as (Hc & _ & Hp & _).
  split; [exact Hc | exact Hp].
Defined.






(** ** Cleanup, tool lookup and diagnostics *)

(** C5: in every run, however it ends, an unlink is the unlink of the
    FIFO that [os.mkfifo] created and comes after [communicate] has
    returned for the pairs split child (child 7, the last one spawned).
    In every run that returns, the last three operations are that
    [communicate], the print of its result and the unlink of the FIFO,
    and nothing is unlinked before. *)
Theorem C5_fifo_unlinked_last env o :
  (forall l1 p l2,
     trace (snd (main env o init)) = l1 ++ EUnlink p :: l2 ->
     p = unpaired_tmpfn env /\
     EMkfifo p ∈ l1 /\
     ECommunicate 7 ∈ l1 /\
     exists pg, last (spawned l1) =
                Some (mkProc 7 [PAIRS pg; "split"; "-1"; opt_o o; "-2";
                                opt_O o; "-u"; opt_u o; "-"]
                             (ProcStdout 6) PIPE (FileObj 8))) /\
  (forall s,
     main env o init = (Ok tt, s) ->
     exists before,
       trace s = before ++ [ECommunicate 7; EPrint 7;
                            EUnlink (unpaired_tmpfn env)] /\
       EMkfifo (unpaired_tmpfn env) ∈ before /\
       (forall p, EUnlink p ∉ before) /\
       p_pid <$> last (spawned before) = Some 7).
Proof.
  split.
  - intros l1 p l2 E.
    refine (run_invariant env o
             (fun past e =>
                match e with
                | EUnlink p =>
                    p = unpaired_tmpfn env /\
                    EMkfifo p ∈ past /\
                    ECommunicate 7 ∈ past /\
                    exists pg, last (spawned past) =
                      Some (mkProc 7 [PAIRS pg; "split"; "-1"; opt_o o; "-2";
                                      opt_O o; "-u"; opt_u o; "-"]
                                   (ProcStdout 6) PIPE (FileObj 8))
                | _ => True
                end) _ l1 (EUnlink p) l2 E).
    intros pg.
    along_trace ltac:(idtac).
    all: try (exists pg); try reflexivity; in_list.
  - intros s H. apply main_returns in H as (pg & _ & Hf & -> & _).
    unfold complete_trace.
    exists (setup_trace env o ++ removelast (removelast (removelast
                                   (pipeline_trace env pg o)))).
    split; [rewrite <- app_assoc; reflexivity |].
    split; [apply elem_of_app; right; unfold pipeline_trace;
            cbn [removelast]; in_list |].
    split.
    + intros p Hin. apply elem_of_app in Hin as [Hin | Hin].
      * unfold setup_trace in Hin. destruct (opt_S o); cbn [app] in Hin;
          repeat (apply elem_of_cons in Hin as [Hin | Hin];
                  [discriminate Hin |]); inversion Hin.
      * unfold pipeline_trace in Hin. cbn [removelast] in Hin.
        repeat (apply elem_of_cons in Hin as [Hin | Hin];
                [discriminate Hin |]); inversion Hin.
    + unfold setup_trace. destruct (opt_S o); reflexivity.
Qed.

Lemma C5_fifo_unlinked_last_witness :
  main env0 opts0 init = (Ok tt, final0) /\
  exists before,
    trace final0 = before ++ [ECommunicate 7; EPrint 7;
                              EUnlink "/tmp/unpaired_2014-05-01_12:00:00"].
Proof.
  assert (H : main env0 opts0 init = (Ok tt, final0))
    by (vm_compute; reflexivity).
  split; [exact H |].
  destruct (proj2 (C5_fifo_unlinked_last env0 opts0) final0 H)
    as (before & Ht & _).
  exists before. exact Ht.
Defined.



(** C7: in every run, however it ends, each child is spawned with a
    file object as its stderr that [tempfile.TemporaryFile] returned
    earlier in the run and that no earlier child was given for any of
    its streams; in particular no child inherits the parent's stderr. *)
Theorem C7_stderr_to_fresh_tempfile env o l1 pid argv i out err l2 :
  trace (snd (main env o init)) = l1 ++ EPopen pid argv i out err :: l2 ->
  err <> Inherit /\
  exists fh,
    err = FileObj fh /\
    ETempFile fh ∈ l1 /\
    forallb (fun e => negb (uses_file fh e)) l1 = true /\
    i <> FileObj fh /\ out <> FileObj fh.
Proof.
  intros E.
  refine (run_invariant env o
            (fun past e =>
               match e with
               | EPopen _ _ i out err =>
                   err <> Inherit /\
                   exists fh,
                     err = FileObj fh /\
                     ETempFile fh ∈ past /\
                     forallb (fun e => negb (uses_file fh e)) past = true /\
                     i <> FileObj fh /\ out <> FileObj fh
               | _ => True
               end) _ l1 (EPopen pid argv i out err) l2 E).
  intros pg.
  along_trace ltac:(idtac).
  all: try discriminate.
  all: eexists; split; [reflexivity |];
       split; [in_list |]; split; [reflexivity |]; split; discriminate.
Qed.

Lemma C7_stderr_to_fresh_tempfile_witness :
  (exists l1 argv l2,
     trace (snd (main env0 opts0 init)) =
     l1 ++ EPopen 5 argv Inherit (FileObj 0) (FileObj 6) :: l2) /\
  (FileObj 6 : stream) <> Inherit.
Proof.
  assert (E : trace (snd (main env0 opts0 init)) =
              firstn 26 (trace final0)
              ++ EPopen 5 ["cat"; "/tmp/unpaired_2014-05-01_12:00:00"]
                          Inherit (FileObj 0) (FileObj 6)
              :: skipn 27 (trace final0))
    by (vm_compute; reflexivity).
  split; [eauto |].
  exact (proj1 (C7_stderr_to_fresh_tempfile env0 opts0 _ _ _ _ _ _ _ E)).
Defined.

(** ** Options that are, or are not, consulted *)

(** C8: two invocations whose options differ only in [-s] run
    identically, from any state: same outcome, same operations, hence
    the same children with the same argument vectors. *)
Theorem C8_skip_option_ignored env o1 o2 s0 :
  differ_only_in_s o1 o2 ->
  main env o1 s0 = main env o2 s0 /\
  spawned (trace (snd (main env o1 s0))) =
  spawned (trace (snd (main env o2 s0))).
Proof.
  intros H.
  assert (E : forall o, main env o s0 = main env (with_s o None) s0)
    by reflexivity.
  assert (Hrun : main env o1 s0 = main env o2 s0).
  { rewrite (E o1), (E o2). unfold differ_only_in_s in H. rewrite H.
    reflexivity. }
  split; [exact Hrun | rewrite Hrun; reflexivity].
Qed.

Lemma C8_skip_option_ignored_witness :
  differ_only_in_s opts0 (with_s opts0 (Some "scythe,sickle")) /\
  main env0 opts0 init = main env0 (with_s opts0 (Some "scythe,sickle")) init.
Proof.
  assert (H : differ_only_in_s opts0 (with_s opts0 (Some "scythe,sickle")))
    by reflexivity.
  split; [exact H |].
  exact (proj1 (C8_skip_option_ignored env0 _ _ init H)).
Defined.

(** C9: a run does not depend on the value of [-t]: with any other
    value, and from any state, [main] ends in the same way after the
    same operations, so that value is in no argument vector.  The
    argument vectors of the children of any run are an initial part of
    the list below and, when the run returns, all of it: the value of
    [-q] follows [-q] in each of the three [seqqs] command lines and
    follows both [-t] and [-q] in the [sickle] command line. *)
Theorem C9_qual_used_type_ignored env o :
  (forall t s0, main env (with_t o t) s0 = main env o s0) /\
  exists pg,
    let argvs :=
      [ [PAIRS pg; "join"; "-t"; opt_i o; opt_I o];
        [SEQQS pg; "-i"; "-e"; "-q"; opt_q o; "-p";
         opt_p o +:+ "_initial_" +:+ NOW env; "-"];
        [SCYTHE pg; "-p"; opt_r o; "-a"; opt_a o; "-M"; "0"; "-"];
        [SEQQS pg; "-i"; "-e"; "-q"; opt_q o; "-p";
         opt_p o +:+ "_noadapt_" +:+ NOW env; "-"];
        [SICKLE pg; "pe"; "-t"; opt_q o; "-c"; "/dev/stdin"; "-m";
         "/dev/stdout"; "-s"; unpaired_tmpfn env; "-q"; opt_q o; "-l";
         opt_l o] ++ (if opt_n o then ["-n"] else []);
        ["cat"; unpaired_tmpfn env];
        [SEQQS pg; "-i"; "-e"; "-q"; opt_q o; "-p";
         opt_p o +:+ "_qualtrim_" +:+ NOW env; "-"];
        [PAIRS pg; "split"; "-1"; opt_o o; "-2"; opt_O o; "-u"; opt_u o;
         "-"] ] in
    map p_argv (spawned (trace (snd (main env o init)))) `prefix_of` argvs /\
    (fst (main env o init) = Ok tt ->
     all_found env o pg /\
     map p_argv (spawned (trace (snd (main env o init)))) = argvs).
Proof.
  split; [reflexivity |].
  destruct (main env o init) as [r s] eqn:Hrun. cbn [fst snd].
  destruct r as [[] | e].
  - apply main_returns in Hrun as (pg & _ & Hf & -> & _).
    exists pg. cbv zeta. rewrite spawned_complete. split; [reflexivity |].
    intros _. split; [exact Hf | reflexivity].
  - destruct (spawned_run_prefix env o) as (pg & k & Hk).
    rewrite Hrun in Hk. cbn [snd] in Hk.
    exists pg. cbv zeta. split; [| discriminate].
    exists (map p_argv k).
    rewrite <- map_app, <- Hk, spawned_complete. reflexivity.
Qed.

Lemma C9_qual_used_type_ignored_witness :
  fst (main env0 opts0 init) = Ok tt /\
  main env0 (with_t opts0 "illumina") init = main env0 opts0 init /\
  length (spawned (trace (snd (main env0 opts0 init)))) = 8.
Proof.
  assert (H : fst (main env0 opts0 init) = Ok tt)
    by (vm_compute; reflexivity).
  split; [exact H |].
  destruct (C9_qual_used_type_ignored env0 opts0) as (Ht & pg & _ & Hok).
  split; [exact (Ht "illumina" init) |].
  destruct (Hok H) as (_ & E).
  rewrite <- (length_map p_argv), E. reflexivity.
Defined.



(** * The run as a script, tool lookup and logging *)

Section Script.

Variable env : Env.

Lemma bind_assoc {A B C} (m : M A) (k1 : A -> M B) (k2 : B -> M C) s :
  bind (bind m k1) k2 s = bind m (fun x => bind (k1 x) k2) s.
Proof. unfold bind. destruct (m s) as [[a | e] s1]; reflexivity. Qed.

Lemma bind_ret {A B} (a : A) (k : A -> M B) s : bind (ret a) k s = k a s.
Proof. reflexivity. Qed.

(** A debug record is below the level of a logger set to [INFO]. *)
Lemma bind_Logger_debug {B} n hs msg (k : unit -> M B) T fh pid op :
  bind (Logger_debug (mkLogger n INFO hs) msg) k (mkState T fh pid op) =
  k tt (mkState T fh pid op).
Proof.
  unfold bind, Logger_debug, Logger_log, log_records.
  cbn [lg_level trace next_fh next_pid open_stdout]. cbn.
  rewrite app_nil_r. reflexivity.
Qed.

(** [find_progs] only asks questions: its result does not depend on
    the state and it leaves the state alone. *)
Lemma find_progs_pure o s :
  find_progs env o s = (fst (find_progs env o init), s).
Proof.
  unfold find_progs, bind, require_prog, raise, ret.
  repeat first
    [ progress cbv beta iota
    | match goal with
      | |- context [locate env ?a ?b] => destruct (locate env a b)
      | |- context [unusable env ?p] => destruct (unusable env p)
      end ];
    reflexivity.
Qed.

(** *** One step of a run against one step of the script *)

Lemma step_perform {B} e (k : unit -> M B) T fh pid op rest R :
  fallible e = true ->
  observe (k tt (mkState (T ++ [e]) fh pid op)) =
    replay_then env rest (T ++ [e]) R ->
  observe (bind (perform env e) k (mkState T fh pid op)) =
    replay_then env (e :: rest) T R.
Proof.
  intros Hf H. cbn [replay_then]. rewrite Hf. cbn [andb].
  unfold bind, perform, push. cbn [trace next_fh next_pid open_stdout].
  destruct (os_fails env T e); [reflexivity | exact H].
Qed.

Lemma step_FileHandler {B} p lvl (k : handler -> M B) T fh pid op rest R :
  observe (k (FileHandler p lvl) (mkState (T ++ [EFileHandler p]) fh pid op)) =
    replay_then env rest (T ++ [EFileHandler p]) R ->
  observe (bind (logging_FileHandler env p lvl) k (mkState T fh pid op)) =
    replay_then env (EFileHandler p :: rest) T R.
Proof.
  intros H. unfold logging_FileHandler.
  replace (bind (bind (perform env (EFileHandler p))
                      (fun _ => ret (FileHandler p lvl))) k
                (mkState T fh pid op))
    with (bind (perform env (EFileHandler p))
               (fun _ => k (FileHandler p lvl)) (mkState T fh pid op)).
  - apply step_perform; [reflexivity | exact H].
  - unfold bind. destruct (perform env (EFileHandler p) _) as [[[] | e] s1];
      reflexivity.
Qed.

Lemma step_gzip_open {B} p (k : nat -> M B) T fh pid op rest R :
  observe (k fh (mkState (T ++ [EGzipOpen p fh]) (S fh) pid op)) =
    replay_then env rest (T ++ [EGzipOpen p fh]) R ->
  observe (bind (gzip_open env p) k (mkState T fh pid op)) =
    replay_then env (EGzipOpen p fh :: rest) T R.
Proof.
  intros H. cbn [replay_then fallible andb].
  unfold bind, gzip_open. cbn [trace next_fh next_pid open_stdout].
  destruct (os_fails env T _); [reflexivity | exact H].
Qed.

Lemma step_TemporaryFile {B} (k : nat -> M B) T fh pid op rest R :
  observe (k fh (mkState (T ++ [ETempFile fh]) (S fh) pid op)) =
    replay_then env rest (T ++ [ETempFile fh]) R ->
  observe (bind (TemporaryFile env) k (mkState T fh pid op)) =
    replay_then env (ETempFile fh :: rest) T R.
Proof.
  intros H. cbn [replay_then fallible andb].
  unfold bind, TemporaryFile. cbn [trace next_fh next_pid open_stdout].
  destruct (os_fails env T _); [reflexivity | exact H].
Qed.

Lemma step_Popen {B} argv i o e (k : nat -> M B) T fh pid op rest R :
  stream_closed (mkState T fh pid op) i = false ->
  observe (k pid (mkState (T ++ [EPopen pid argv i o e]) fh (S pid)
                          (match o with
                           | PIPE => {[ pid ]} ∪ op
                           | _ => op
                           end))) =
    replay_then env rest (T ++ [EPopen pid argv i o e]) R ->
  observe (bind (Popen env argv i o e) k (mkState T fh pid op)) =
    replay_then env (EPopen pid argv i o e :: rest) T R.
Proof.
  intros Hopen H. cbn [replay_then fallible andb].
  unfold bind, Popen. rewrite Hopen.
  cbn [trace next_fh next_pid open_stdout].
  destruct (os_fails env T _); [reflexivity | exact H].
Qed.

Lemma step_communicate {B} p (k : unit -> M B) T fh pid op rest R :
  observe (k tt (mkState (T ++ [ECommunicate p]) fh pid (op ∖ {[ p ]}))) =
    replay_then env rest (T ++ [ECommunicate p]) R ->
  observe (bind (communicate env p) k (mkState T fh pid op)) =
    replay_then env (ECommunicate p :: rest) T R.
Proof.
  intros H. cbn [replay_then fallible andb].
  unfold bind, communicate. cbn [trace next_fh next_pid open_stdout].
  destruct (os_fails env T _); [reflexivity | exact H].
Qed.

Lemma step_stdout_close {B} p (k : unit -> M B) T fh pid op rest R :
  observe (k tt (mkState (T ++ [ECloseStdout p]) fh pid (op ∖ {[ p ]}))) =
    replay_then env rest (T ++ [ECloseStdout p]) R ->
  observe (bind (stdout_close p) k (mkState T fh pid op)) =
    replay_then env (ECloseStdout p :: rest) T R.
Proof. intros H. exact H. Qed.

Lemma step_Logger_info {B} n p msg (k : unit -> M B) T fh pid op rest R :
  observe (k tt (mkState (T ++ [ELog p msg]) fh pid op)) =
    replay_then env rest (T ++ [ELog p msg]) R ->
  observe (bind (Logger_info (mkLogger n INFO [FileHandler p INFO]) msg) k
                (mkState T fh pid op)) =
    replay_then env (ELog p msg :: rest) T R.
Proof. intros H. exact H. Qed.

Lemma step_last e T fh pid op :
  fallible e = true ->
  observe (perform env e (mkState T fh pid op)) = replay env [e] T.
Proof.
  intros Hf. unfold replay. cbn [replay_then]. rewrite Hf. cbn [andb].
  unfold perform, push. cbn [trace next_fh next_pid open_stdout].
  destruct (os_fails env T e); reflexivity.
Qed.

End Script.

(** The pipe handed to a child as stdin is still open in the parent. *)
Ltac still_open :=
  unfold stream_closed; cbn [open_stdout];
  first [ reflexivity | vm_compute; reflexivity ].

Ltac script_step :=
  cbn [app CMD_LOG];
  lazymatch goal with
  | |- observe (bind (logging_FileHandler _ _ _) _ _) = _ =>
      apply step_FileHandler
  | |- observe (bind (gzip_open _ _) _ _) = _ => apply step_gzip_open
  | |- observe (bind (TemporaryFile _) _ _) = _ => apply step_TemporaryFile
  | |- observe (bind (Popen _ _ _ _ _) _ _) = _ =>
      apply step_Popen; [ still_open | ]
  | |- observe (bind (communicate _ _) _ _) = _ => apply step_communicate
  | |- observe (bind (stdout_close _) _ _) = _ => apply step_stdout_close
  | |- observe (bind (Logger_info _ _) _ _) = _ => apply step_Logger_info
  | |- observe (bind (mkfifo _ _) _ _) = _ =>
      apply step_perform; [ reflexivity | ]
  | |- observe (bind (print_result _ _) _ _) = _ =>
      apply step_perform; [ reflexivity | ]
  end.

Section MainScript.

Variable env : Env.

Ltac norm :=
  repeat first [ rewrite bind_assoc | rewrite bind_ret
               | rewrite bind_Logger_debug ];
  cbv beta zeta.

Lemma main_observe_script o :
  observe (main env o init) = main_script env o.
Proof.
  unfold main, main_script, setup_logs.
  destruct (path_exists env (opt_L o)); cbn [negb]; [| reflexivity].
  pose proof (find_progs_pure env o) as Hp.
  set (r := fst (find_progs env o init)) in *.
  unfold setup_trace, init.
  destruct (opt_S o); cbn [negb app].
  - norm. script_step. norm. script_step. norm.
    cbn [replay_then app].
    unfold bind at 1. rewrite Hp. cbv iota.
    destruct r as [pg | e]; [| reflexivity].
    unfold replay, pipeline_trace. cbv zeta.
    repeat script_step.
    cbn [app]. apply step_last. reflexivity.
  - norm. script_step. norm. script_step. norm. script_step. norm.
    cbn [replay_then app].
    unfold bind at 1. rewrite Hp. cbv iota.
    destruct r as [pg | e]; [| reflexivity].
    unfold replay, pipeline_trace. cbv zeta.
    repeat script_step.
    cbn [app]. apply step_last. reflexivity.
Qed.

(** X1: seen from outside, [main] is its script.  How a run ends and
    what it has done by then are those of: check the log directory;
    open the log files; look the tools up; then perform the operations
    of the pipeline in order; stopping with [OSError] at the first
    operation that the operating system refuses, and performing
    nothing after it. *)
Theorem main_is_script o :
  observe (main env o init) = main_script env o.
Proof. exact (main_observe_script o). Qed.

End MainScript.

Section Replay.

Variable env : Env.

Lemma accepted_nil past : accepted env past [].
Proof. intros l1 e l2 E. destruct l1; discriminate. Qed.

Lemma accepted_cons past e ops :
  (fallible e = true -> os_fails env past e = false) ->
  accepted env (past ++ [e]) ops ->
  accepted env past (e :: ops).
Proof.
  intros He Hops l1 x l2 E Hx. destruct l1 as [| y l1]; cbn [app] in E.
  - inversion E; subst. rewrite app_nil_r. auto.
  - inversion E; subst.
    replace (past ++ y :: l1) with ((past ++ [y]) ++ l1)
      by (rewrite <- app_assoc; reflexivity).
    eapply Hops; eauto.
Qed.

Lemma accepted_app past a b :
  accepted env past a -> accepted env (past ++ a) b ->
  accepted env past (a ++ b).
Proof.
  revert past. induction a as [| x a IH]; intros past Ha Hb; cbn [app].
  - rewrite app_nil_r in Hb. exact Hb.
  - apply accepted_cons.
    + intros Hx. specialize (Ha [] x a eq_refl Hx).
      rewrite app_nil_r in Ha. exact Ha.
    + apply IH.
      * intros l1 e l2 E He. rewrite <- app_assoc. cbn [app].
        apply (Ha (x :: l1) e l2); [cbn [app]; congruence | exact He].
      * rewrite <- app_assoc. exact Hb.
Qed.

(** A script either stops at its first refused operation or goes
    through. *)
Lemma replay_then_cases ops past k :
  (exists done e rest,
      ops = done ++ e :: rest /\ accepted env past done /\
      fallible e = true /\ os_fails env (past ++ done) e = true /\
      replay_then env ops past k = (Raised (OSError e), past ++ done))
  \/ (accepted env past ops /\
      replay_then env ops past k = k (past ++ ops)).
Proof.
  revert past. induction ops as [| x ops IH]; intros past.
  - right. split; [apply accepted_nil |]. cbn. rewrite app_nil_r. reflexivity.
  - cbn [replay_then].
    destruct (fallible x && os_fails env past x) eqn:Hx.
    + left. apply andb_true_iff in Hx as [Hf Hr].
      exists [], x, ops. rewrite app_nil_r.
      repeat split; auto. apply accepted_nil.
    + assert (Hok : fallible x = true -> os_fails env past x = false).
      { intros Hf. rewrite Hf in Hx. exact Hx. }
      destruct (IH (past ++ [x]))
        as [(done & e & rest & -> & Hacc & Hf & Hr & ->) | (Hacc & ->)].
      * left. exists (x :: done), e, rest.
        rewrite <- app_assoc in Hr |- *. cbn [app] in *.
        repeat split; auto. apply accepted_cons; auto.
      * right. rewrite <- app_assoc. cbn [app].
        split; [apply accepted_cons; auto | reflexivity].
Qed.

End Replay.

Section Outcomes.

Variable env : Env.

Lemma all_found_unique o pg1 pg2 :
  all_found env o pg1 -> all_found env o pg2 -> pg1 = pg2.
Proof.
  intros ((E1 & _) & (E2 & _) & (E3 & _) & (E4 & _))
         ((F1 & _) & (F2 & _) & (F3 & _) & (F4 & _)).
  destruct pg1 as [a1 b1 c1 d1], pg2 as [a2 b2 c2 d2].
  cbn [SICKLE SCYTHE SEQQS PAIRS] in *. congruence.
Qed.


(** How a run can end, with what it has done by then. *)
Lemma main_outcomes o :
  (path_exists env (opt_L o) = false /\
   observe (main env o init) =
     (Raised (RuntimeError "Log directory not found."), []))
  \/ (path_exists env (opt_L o) = true /\
      exists done op rest,
        setup_trace env o = done ++ op :: rest /\
        accepted env [] done /\
        fallible op = true /\ os_fails env done op = true /\
        observe (main env o init) = (Raised (OSError op), done))
  \/ (path_exists env (opt_L o) = true /\
      accepted env [] (setup_trace env o) /\
      any_unusable env o = true /\
      exists msg,
        observe (main env o init) =
          (Raised (RuntimeError msg), setup_trace env o))
  \/ (path_exists env (opt_L o) = true /\
      accepted env [] (setup_trace env o) /\
      exists pg done op rest,
        all_found env o pg /\
        pipeline_trace env pg o = done ++ op :: rest /\
        accepted env (setup_trace env o) done /\
        fallible op = true /\
        os_fails env (setup_trace env o ++ done) op = true /\
        observe (main env o init) =
          (Raised (OSError op), setup_trace env o ++ done))
  \/ (path_exists env (opt_L o) = true /\
      exists pg,
        all_found env o pg /\
        accepted env [] (complete_trace env pg o) /\
        observe (main env o init) = (Ok tt, complete_trace env pg o)).
Proof.
  rewrite main_observe_script. unfold main_script.
  destruct (path_exists env (opt_L o)); cbn [negb]; [| left; auto].
  right.
  destruct (replay_then_cases env (setup_trace env o) []
              (fun tr =>
                 match fst (find_progs env o init) with
                 | Ok pg => replay env (pipeline_trace env pg o) tr
                 | Raised e => (Raised e, tr)
                 end))
    as [(done & op & rest & E & Hacc & Hf & Hr & ->) | (Hacc & ->)].
  { left. split; [reflexivity |]. exists done, op, rest. cbn [app] in *.
    repeat split; auto. }
  right. cbn [app].
  destruct (find_progs env o init) as [r s0] eqn:Hfind. cbn [fst].
  apply find_progs_cases in Hfind as (_ & [(m & -> & Hu) | (pg & -> & Hfound)]).
  { left. repeat split; auto. eauto. }
  right. unfold replay.
  destruct (replay_then_cases env (pipeline_trace env pg o)
              (setup_trace env o) (fun tr => (Ok tt, tr)))
    as [(done & op & rest & E & Hacc' & Hf & Hr & ->) | (Hacc' & ->)].
  - left. repeat split; auto. exists pg, done, op, rest.
    split; [exact Hfound |]. repeat split; auto.
  - right. split; [reflexivity |]. exists pg. split; [exact Hfound |].
    split; [| reflexivity].
    unfold complete_trace. apply accepted_app; assumption.
Qed.

End Outcomes.


Lemma observe_unit (x : outcome unit * state) r tr :
  observe x = (r, tr) -> fst x = r /\ trace (snd x) = tr.
Proof.
  unfold observe. destruct x as [[[] | e0] s]; cbn [fst snd];
    intros H; inversion H; auto.
Qed.

Lemma any_usable_found env o :
  any_unusable env o = false -> exists pg, all_found env o pg.
Proof.
  intros Hu. destruct (find_progs env o init) as [r s] eqn:H.
  apply find_progs_cases in H as (_ & [(m & _ & Hu') | (pg & _ & Hf)]).
  - congruence.
  - eauto.
Qed.

(** X2: [main] returns exactly when the log directory exists, the four
    tools are usable and none of the operations of the complete trace
    is refused at its turn.  In particular it returns whenever the
    directory exists, the tools are usable and the operating system
    refuses nothing. *)
Theorem main_returns_iff env o :
  (fst (main env o init) = Ok tt <->
   path_exists env (opt_L o) = true /\
   exists pg, all_found env o pg /\
              accepted env [] (complete_trace env pg o)) /\
  (never_refuses env ->
   path_exists env (opt_L o) = true ->
   any_unusable env o = false ->
   fst (main env o init) = Ok tt).
Proof.
  assert (Hiff : fst (main env o init) = Ok tt <->
            path_exists env (opt_L o) = true /\
            exists pg, all_found env o pg /\
                       accepted env [] (complete_trace env pg o)).
  { split.
    - intros Hok.
      destruct (main_outcomes env o)
        as [(_ & H) | [(_ & ? & ? & ? & _ & _ & _ & _ & H)
           | [(_ & _ & _ & ? & H)
           | [(_ & _ & ? & ? & ? & ? & _ & _ & _ & _ & _ & H)
           | (HL & pg & Hf & Hacc & _)]]]];
        try (apply observe_unit in H as [H _]; congruence).
      split; [exact HL |]. exists pg. split; assumption.
    - intros (HL & pg & Hf & Hacc).
      destruct (main_outcomes env o)
        as [(HL' & _) | [(_ & done & op & rest & E & _ & Hfal & Hr & _)
           | [(_ & _ & Hu & _)
           | [(_ & _ & pg' & done & op & rest & Hf' & E & _ & Hfal & Hr & _)
           | (_ & pg' & _ & _ & H)]]]].
      + congruence.
      + assert (Hno : os_fails env ([] ++ done) op = false).
        { apply (Hacc done op (rest ++ pipeline_trace env pg o)); [| exact Hfal].
          unfold complete_trace. rewrite E, <- app_assoc. reflexivity. }
        cbn [app] in Hno. congruence.
      + apply all_found_usable in Hf. congruence.
      + rewrite (all_found_unique env o pg' pg Hf' Hf) in E.
        assert (Hno : os_fails env ([] ++ (setup_trace env o ++ done)) op
                      = false).
        { apply (Hacc (setup_trace env o ++ done) op rest); [| exact Hfal].
          unfold complete_trace. rewrite E, <- app_assoc. reflexivity. }
        cbn [app] in Hno. congruence.
      + apply observe_unit in H as [H _]. exact H. }
  split; [exact Hiff |].
  intros Hnever HL Hu. apply Hiff. split; [exact HL |].
  destruct (any_usable_found env o Hu) as (pg & Hf).
  exists pg. split; [exact Hf |]. intros l1 e l2 _ _. apply Hnever.
Qed.

Lemma main_returns_iff_witness :
  never_refuses env0 /\
  path_exists env0 (opt_L opts0) = true /\
  any_unusable env0 opts0 = false /\
  fst (main env0 opts0 init) = Ok tt.
Proof.
  assert (H1 : never_refuses env0) by (intros past e; reflexivity).
  assert (H2 : path_exists env0 (opt_L opts0) = true) by reflexivity.
  assert (H3 : any_unusable env0 opts0 = false) by (vm_compute; reflexivity).
  split; [exact H1 |]. split; [exact H2 |]. split; [exact H3 |].
  exact (proj2 (main_returns_iff env0 opts0) H1 H2 H3).
Defined.

Lemma main_raises_cases env o e :
  fst (main env o init) = Raised e ->
  (e = RuntimeError "Log directory not found." /\
   path_exists env (opt_L o) = false /\
   trace (snd (main env o init)) = [])
  \/ (exists msg,
        e = RuntimeError msg /\
        path_exists env (opt_L o) = true /\
        any_unusable env o = true /\
        trace (snd (main env o init)) = setup_trace env o)
  \/ (exists op pg rest,
        e = OSError op /\
        fallible op = true /\
        os_fails env (trace (snd (main env o init))) op = true /\
        complete_trace env pg o =
          trace (snd (main env o init)) ++ op :: rest).
Proof.
  intros Hr.
  destruct (main_outcomes env o)
    as [(HL & H) | [(HL & done & op & rest & E & _ & Hfal & Hos & H)
       | [(HL & _ & Hu & msg & H)
       | [(HL & _ & pg & done & op & rest & Hf & E & _ & Hfal & Hos & H)
       | (_ & pg & _ & _ & H)]]]];
    apply observe_unit in H as [H Ht]; rewrite H in Hr;
    inversion Hr; subst e; clear Hr.
  - left. auto.
  - right. right. exists op, (mkProgs "" "" "" ""),
                         (rest ++ pipeline_trace env (mkProgs "" "" "" "") o).
    rewrite Ht. repeat split; auto.
    unfold complete_trace. rewrite E, <- app_assoc. reflexivity.
  - right. left. exists msg. auto.
  - right. right. exists op, pg, rest. rewrite Ht. repeat split; auto.
    unfold complete_trace. rewrite E, <- app_assoc. reflexivity.
Qed.

(** X3: what [main] can raise.  It is the [RuntimeError] for the
    missing log directory, with nothing done; or the [RuntimeError] of
    the tool lookup, with the logs set up and nothing else done; or the
    [OSError] of the library call that the operating system refused,
    right after the operations done so far, which are those of the
    complete trace up to that call.  It is never a [ValueError]: no
    closed pipe handle is ever passed to a child. *)
Theorem main_raises_classified env o e :
  fst (main env o init) = Raised e ->
  (e = RuntimeError "Log directory not found." /\
   path_exists env (opt_L o) = false /\
   trace (snd (main env o init)) = [])
  \/ (exists msg,
        e = RuntimeError msg /\
        path_exists env (opt_L o) = true /\
        any_unusable env o = true /\
        trace (snd (main env o init)) = setup_trace env o)
  \/ (exists op pg rest,
        e = OSError op /\
        fallible op = true /\
        os_fails env (trace (snd (main env o init))) op = true /\
        complete_trace env pg o =
          trace (snd (main env o init)) ++ op :: rest).
Proof. exact (main_raises_cases env o e). Qed.

Lemma main_raises_classified_witness :
  fst (main env3 opts0 init) =
    Raised (OSError (EMkfifo "/tmp/unpaired_2014-05-01_12:00:00")) /\
  exists op, os_fails env3 (trace (snd (main env3 opts0 init))) op = true.
Proof.
  assert (H : fst (main env3 opts0 init) =
              Raised (OSError (EMkfifo "/tmp/unpaired_2014-05-01_12:00:00")))
    by (vm_compute; reflexivity).
  split; [exact H |].
  destruct (main_raises_classified env3 opts0 _ H)
    as [(He & _) | [(msg & He & _) | (op & pg & rest & _ & _ & Hos & _)]];
    try discriminate He.
  exists op. exact Hos.
Defined.

Lemma unlink_only_last env pg o :
  forallb (fun e => negb (is_unlink e))
          (removelast (complete_trace env pg o)) = true.
Proof.
  unfold complete_trace, setup_trace. destruct (opt_S o); reflexivity.
Qed.

(** X4: the FIFO is unlinked exactly in the runs that return.  A run
    that raises, at whatever point, unlinks nothing: once created the
    FIFO is left behind. *)
Theorem unlink_iff_returns env o :
  (exists p, EUnlink p ∈ trace (snd (main env o init))) <->
  fst (main env o init) = Ok tt.
Proof.
  split.
  - intros (p & Hin).
    destruct (fst (main env o init)) as [[] | e] eqn:Hr; [reflexivity |].
    exfalso.
    destruct (main_raises_cases env o e Hr)
      as [(_ & _ & Ht) | [(msg & _ & _ & _ & Ht)
         | (op & pg & rest & _ & _ & _ & E)]].
    + rewrite Ht in Hin. inversion Hin.
    + rewrite Ht in Hin. unfold setup_trace in Hin.
      destruct (opt_S o); cbn [app] in Hin;
        repeat (apply elem_of_cons in Hin as [Hin | Hin];
                [discriminate Hin |]); inversion Hin.
    + pose proof (unlink_only_last env pg o) as Hall.
      rewrite E, removelast_app in Hall by discriminate.
      rewrite forallb_app in Hall. apply andb_true_iff in Hall as [Hall _].
      rewrite forallb_forall in Hall.
      apply list_elem_of_In in Hin. specialize (Hall _ Hin). discriminate.
  - intros Hok. destruct (main env o init) as [r s] eqn:Hrun.
    cbn [fst snd] in *. subst r.
    apply main_returns in Hrun as (pg & _ & _ & -> & _).
    exists (unpaired_tmpfn env).
    unfold complete_trace, pipeline_trace. apply elem_of_app. right. in_list.
Qed.

Lemma unlink_iff_returns_witness :
  fst (main env0 opts0 init) = Ok tt /\
  exists p, EUnlink p ∈ trace (snd (main env0 opts0 init)).
Proof.
  assert (H : fst (main env0 opts0 init) = Ok tt)
    by (vm_compute; reflexivity).
  split; [exact H |].
  exact (proj2 (unlink_iff_returns env0 opts0) H).
Defined.

(** X5: the check of the log directory comes first: if the directory
    is missing [main] raises at once, whatever the state of the tools,
    and has done nothing.  And whenever [main] raises a [RuntimeError],
    all it has done is open log files: the [-u] output file has not
    been opened, no FIFO has been made and no child spawned. *)
Theorem runtime_error_touches_only_logs env o :
  (path_exists env (opt_L o) = false ->
   main env o init =
     (Raised (RuntimeError "Log directory not found."), init)) /\
  (forall msg,
     fst (main env o init) = Raised (RuntimeError msg) ->
     forallb is_filehandler (trace (snd (main env o init))) = true).
Proof.
  split.
  - intros HL. unfold main, bind, setup_logs. rewrite HL. reflexivity.
  - intros msg Hr.
    destruct (main_raises_cases env o _ Hr)
      as [(_ & _ & ->) | [(m & _ & _ & _ & ->)
         | (op & pg & rest & He & _)]].
    + reflexivity.
    + unfold setup_trace. destruct (opt_S o); reflexivity.
    + discriminate He.
Qed.

Lemma runtime_error_touches_only_logs_witness :
  path_exists env2 (opt_L opts0) = false /\
  main env2 opts0 init =
    (Raised (RuntimeError "Log directory not found."), init) /\
  fst (main env1 opts0 init) = Raised (RuntimeError "Can't find scythe") /\
  forallb is_filehandler (trace (snd (main env1 opts0 init))) = true.
Proof.
  assert (H1 : path_exists env2 (opt_L opts0) = false) by reflexivity.
  assert (H2 : fst (main env1 opts0 init) =
               Raised (RuntimeError "Can't find scythe"))
    by (vm_compute; reflexivity).
  split; [exact H1 |].
  split; [exact (proj1 (runtime_error_touches_only_logs env2 opts0) H1) |].
  split; [exact H2 |].
  exact (proj2 (runtime_error_touches_only_logs env1 opts0) _ H2).
Defined.

Lemma require_prog_unusable env p msg s :
  unusable env p = true ->
  require_prog env p msg s = (Raised (RuntimeError msg), s).
Proof.
  intros H. unfold require_prog. destruct p as [f |]; [| reflexivity].
  rewrite H. reflexivity.
Qed.

Lemma require_prog_usable env p msg s :
  unusable env p = false ->
  exists f, p = Some f /\ require_prog env p msg s = (Ok f, s).
Proof.
  intros H. unfold require_prog. destruct p as [f |]; [| discriminate H].
  rewrite H. eauto.
Qed.

(** X7: [find_progs] checks the tools in the order sickle, scythe,
    seqqs, pairs and raises for the first unusable one, without
    looking further.  The message names that tool, except for [pairs],
    whose message reads "Can't find sickle". *)
Theorem find_progs_first_failure env o s :
  (unusable env (locate env (opt_K o) "sickle") = true ->
   find_progs env o s = (Raised (RuntimeError "Can't find sickle"), s)) /\
  (unusable env (locate env (opt_K o) "sickle") = false ->
   unusable env (locate env (opt_C o) "scythe") = true ->
   find_progs env o s = (Raised (RuntimeError "Can't find scythe"), s)) /\
  (unusable env (locate env (opt_K o) "sickle") = false ->
   unusable env (locate env (opt_C o) "scythe") = false ->
   unusable env (locate env (opt_E o) "seqqs") = true ->
   find_progs env o s = (Raised (RuntimeError "Can't find seqqs"), s)) /\
  (unusable env (locate env (opt_K o) "sickle") = false ->
   unusable env (locate env (opt_C o) "scythe") = false ->
   unusable env (locate env (opt_E o) "seqqs") = false ->
   unusable env (locate env (opt_P o) "pairs") = true ->
   find_progs env o s = (Raised (RuntimeError "Can't find sickle"), s)).
Proof.
  unfold find_progs, bind. repeat split.
  - intros H1. rewrite (require_prog_unusable _ _ _ _ H1). reflexivity.
  - intros H1 H2.
    destruct (require_prog_usable env _ "Can't find sickle" s H1)
      as (f1 & _ & ->).
    rewrite (require_prog_unusable _ _ _ _ H2). reflexivity.
  - intros H1 H2 H3.
    destruct (require_prog_usable env _ "Can't find sickle" s H1)
      as (f1 & _ & ->).
    destruct (require_prog_usable env _ "Can't find scythe" s H2)
      as (f2 & _ & ->).
    rewrite (require_prog_unusable _ _ _ _ H3). reflexivity.
  - intros H1 H2 H3 H4.
    destruct (require_prog_usable env _ "Can't find sickle" s H1)
      as (f1 & _ & ->).
    destruct (require_prog_usable env _ "Can't find scythe" s H2)
      as (f2 & _ & ->).
    destruct (require_prog_usable env _ "Can't find seqqs" s H3)
      as (f3 & _ & ->).
    rewrite (require_prog_unusable _ _ _ _ H4). reflexivity.
Qed.

Lemma find_progs_first_failure_witness :
  unusable env4 (locate env4 (opt_P opts0) "pairs") = true /\
  find_progs env4 opts0 init =
    (Raised (RuntimeError "Can't find sickle"), init) /\
  find_progs env1 opts0 init =
    (Raised (RuntimeError "Can't find scythe"), init).
Proof.
  assert (K4 : unusable env4 (locate env4 (opt_K opts0) "sickle") = false)
    by (vm_compute; reflexivity).
  assert (C4 : unusable env4 (locate env4 (opt_C opts0) "scythe") = false)
    by (vm_compute; reflexivity).
  assert (E4 : unusable env4 (locate env4 (opt_E opts0) "seqqs") = false)
    by (vm_compute; reflexivity).
  assert (P4 : unusable env4 (locate env4 (opt_P opts0) "pairs") = true)
    by (vm_compute; reflexivity).
  assert (K1 : unusable env1 (locate env1 (opt_K opts0) "sickle") = false)
    by (vm_compute; reflexivity).
  assert (C1 : unusable env1 (locate env1 (opt_C opts0) "scythe") = true)
    by (vm_compute; reflexivity).
  split; [exact P4 |].
  split.
  - exact (proj2 (proj2 (proj2 (find_progs_first_failure env4 opts0 init)))
                 K4 C4 E4 P4).
  - exact (proj1 (proj2 (find_progs_first_failure env1 opts0 init)) K1 C1).
Defined.

(** X8: [main] depends on the four tool options only through the
    paths that are looked at: two option sets that agree elsewhere and
    lead to the same four paths run identically from any state.  So an
    empty option value is the same as no option, and an option naming
    what the search would find is the same as no option. *)
Theorem tool_options_only_through_paths env o1 o2 s :
  same_tools_located env o1 o2 ->
  main env o1 s = main env o2 s.
Proof.
  intros (Hrest & HK & HC & HE & HP).
  assert (Ho : o1 = with_tools o2 (opt_K o1) (opt_C o1) (opt_E o1) (opt_P o1)).
  { destruct o1, o2. unfold with_tools in *. cbn in *.
    inversion Hrest; subst. reflexivity. }
  rewrite Ho at 1.
  set (o2' := with_tools o2 (opt_K o1) (opt_C o1) (opt_E o1) (opt_P o1)).
  assert (Hfp : forall s', find_progs env o2' s' = find_progs env o2 s').
  { intros s'. unfold find_progs, o2'.
    cbn [opt_K opt_C opt_E opt_P with_tools].
    rewrite HK, HC, HE, HP. reflexivity. }
  unfold main, bind.
  change (setup_logs env o2' s) with (setup_logs env o2 s).
  destruct (setup_logs env o2 s) as [[lg | e] s1]; [| reflexivity].
  rewrite Hfp.
  destruct (find_progs env o2 s1) as [[pg | e] s2]; reflexivity.
Qed.

Lemma tool_options_only_through_paths_witness :
  same_tools_located env0 opts0
    (with_tools opts0 (Some "") None (Some "/usr/bin/seqqs") None) /\
  main env0 opts0 init =
  main env0 (with_tools opts0 (Some "") None (Some "/usr/bin/seqqs") None)
       init.
Proof.
  assert (H : same_tools_located env0 opts0
                (with_tools opts0 (Some "") None (Some "/usr/bin/seqqs") None))
    by (repeat split; vm_compute; reflexivity).
  split; [exact H |].
  exact (tool_options_only_through_paths env0 _ _ init H).
Defined.

(** ** Logging *)

Lemma logged_complete env pg o :
  logged (complete_trace env pg o) =
  map (fun p => (cmd_lfn env o, join_cli (p_argv p)))
      (spawned (complete_trace env pg o)).
Proof.
  unfold complete_trace, setup_trace. destruct (opt_S o); reflexivity.
Qed.

(** Every record of every run goes to the commands log. *)
Lemma records_go_to_commands_log env o p m :
  ELog p m ∈ trace (snd (main env o init)) -> p = cmd_lfn env o.
Proof.
  intros Hin. apply list_elem_of_split in Hin as (l1 & l2 & E).
  refine (run_invariant env o
            (fun _ e =>
               match e with
               | ELog p _ => p = cmd_lfn env o
               | _ => True
               end) _ l1 (ELog p m) l2 E).
  intros pg. along_trace ltac:(reflexivity).
Qed.

(** X9: the commands log records the children.  In every run, however
    it ends, the command line of a child, its argument vector joined
    by single spaces, is written to the commands log before the child
    is spawned, and no record is written to any other file.  In a run
    that returns the records are exactly the command lines of the
    children, in spawn order. *)
Theorem commands_logged_before_spawn env o :
  (forall l1 pid argv i out err l2,
     trace (snd (main env o init)) = l1 ++ EPopen pid argv i out err :: l2 ->
     ELog (cmd_lfn env o) (join_cli argv) ∈ l1) /\
  (forall p m,
     ELog p m ∈ trace (snd (main env o init)) -> p = cmd_lfn env o) /\
  (fst (main env o init) = Ok tt ->
   logged (trace (snd (main env o init))) =
   map (fun p => (cmd_lfn env o, join_cli (p_argv p)))
       (spawned (trace (snd (main env o init))))).
Proof.
  split; [| split].
  - intros l1 pid argv i out err l2 E.
    refine (run_invariant env o
              (fun past e =>
                 match e with
                 | EPopen _ argv _ _ _ =>
                     ELog (cmd_lfn env o) (join_cli argv) ∈ past
                 | _ => True
                 end) _ l1 (EPopen pid argv i out err) l2 E).
    intros pg. along_trace ltac:(in_list).
  - intros p m. apply records_go_to_commands_log.
  - intros Hok. destruct (main env o init) as [r s] eqn:Hrun.
    cbn [fst snd] in *. subst r.
    apply main_returns in Hrun as (pg & _ & _ & -> & _).
    apply logged_complete.
Qed.

Lemma commands_logged_before_spawn_witness :
  fst (main env0 opts0 init) = Ok tt /\
  length (logged (trace (snd (main env0 opts0 init)))) = 8.
Proof.
  assert (H : fst (main env0 opts0 init) = Ok tt)
    by (vm_compute; reflexivity).
  split; [exact H |].
  rewrite (proj2 (proj2 (commands_logged_before_spawn env0 opts0)) H).
  rewrite length_map. vm_compute. reflexivity.
Defined.




Lemma append_inj_l a x y : a +:+ x = a +:+ y -> x = y.
Proof.
  induction a as [| c a IH]; cbn; intros H; [exact H |].
  inversion H. auto.
Qed.

Lemma prefix_slash_cons c x y :
  String.prefix "/" (String c x) = String.prefix "/" (String c y).
Proof.
  change (String.prefix "/" (String c x))
    with (match Ascii.ascii_dec "/" c with
          | left _ => String.prefix "" x
          | right _ => false
          end).
  change (String.prefix "/" (String c y))
    with (match Ascii.ascii_dec "/" c with
          | left _ => String.prefix "" y
          | right _ => false
          end).
  destruct (Ascii.ascii_dec "/" c); [| reflexivity].
  destruct x, y; reflexivity.
Qed.

Lemma prefix_slash_tag p r1 r2 :
  String.prefix "/" (p +:+ String "_" r1) =
  String.prefix "/" (p +:+ String "_" r2).
Proof.
  destruct p as [| c p].
  - change ("" +:+ String "_" r1) with (String "_" r1).
    change ("" +:+ String "_" r2) with (String "_" r2).
    apply prefix_slash_cons.
  - change (String c p +:+ String "_" r1) with (String c (p +:+ String "_" r1)).
    change (String c p +:+ String "_" r2) with (String c (p +:+ String "_" r2)).
    apply prefix_slash_cons.
Qed.

(** Joining one directory with two names that differ after a common
    prefix gives two different paths. *)
Lemma path_join_tags L p r1 r2 :
  r1 <> r2 ->
  path_join L (p +:+ String "_" r1) <> path_join L (p +:+ String "_" r2).
Proof.
  intros Hne. unfold path_join.
  rewrite (prefix_slash_tag p r1 r2).
  destruct (String.prefix "/" (p +:+ String "_" r2)).
  - intros H. apply append_inj_l in H. congruence.
  - destruct (String.eqb L "" || endswith_sep L).
    + intros H. apply append_inj_l, append_inj_l in H. congruence.
    + intros H. apply append_inj_l in H.
      change ("/" +:+ p +:+ String "_" r1)
        with (String "/" (p +:+ String "_" r1)) in H.
      change ("/" +:+ p +:+ String "_" r2)
        with (String "/" (p +:+ String "_" r2)) in H.
      assert (H' : p +:+ String "_" r1 = p +:+ String "_" r2) by congruence.
      apply append_inj_l in H'. congruence.
Qed.

Lemma log_files_distinct env o :
  cmd_lfn env o <> stderr_lfn env o /\
  cmd_lfn env o <> summary_lfn env o /\
  stderr_lfn env o <> summary_lfn env o.
Proof.
  unfold cmd_lfn, stderr_lfn, summary_lfn.
  repeat split.
  - apply (path_join_tags (opt_L o) (opt_p o)
             ("cmds_" +:+ NOW env +:+ ".log")
             ("stderrs_" +:+ NOW env +:+ ".log")).
    cbn. intros H. discriminate H.
  - apply (path_join_tags (opt_L o) (opt_p o)
             ("cmds_" +:+ NOW env +:+ ".log")
             ("summary_" +:+ NOW env +:+ ".log")).
    cbn. intros H. discriminate H.
  - apply (path_join_tags (opt_L o) (opt_p o)
             ("stderrs_" +:+ NOW env +:+ ".log")
             ("summary_" +:+ NOW env +:+ ".log")).
    cbn. intros H. discriminate H.
Qed.

(** X11: the three log files of a run are three different files,
    whatever the log directory, the prefix and the time stamp; and no
    run ever writes a record to the stderrs file or to the summary
    file: both are opened and left empty. *)
Theorem stderr_and_summary_logs_stay_empty env o :
  (cmd_lfn env o <> stderr_lfn env o /\
   cmd_lfn env o <> summary_lfn env o /\
   stderr_lfn env o <> summary_lfn env o) /\
  (forall p m,
     ELog p m ∈ trace (snd (main env o init)) ->
     p <> stderr_lfn env o /\ p <> summary_lfn env o).
Proof.
  split; [apply log_files_distinct |].
  intros p m Hin.
  apply records_go_to_commands_log in Hin.
  subst p. destruct (log_files_distinct env o) as (H1 & H2 & _). auto.
Qed.

Lemma stderr_and_summary_logs_stay_empty_witness :
  ELog "./run_cmds_2014-05-01_12:00:00.log" "cat /tmp/unpaired_2014-05-01_12:00:00"
    ∈ trace (snd (main env0 opts0 init)) /\
  "./run_cmds_2014-05-01_12:00:00.log" <> stderr_lfn env0 opts0.
Proof.
  assert (H : ELog "./run_cmds_2014-05-01_12:00:00.log"
                   "cat /tmp/unpaired_2014-05-01_12:00:00"
              ∈ trace (snd (main env0 opts0 init))).
  { apply list_elem_of_In. vm_compute.
    repeat first [ left; reflexivity | right ]. }
  split; [exact H |].
  exact (proj1 (proj2 (stderr_and_summary_logs_stay_empty env0 opts0) _ _ H)).
Defined.

(** ** The [-S] flag *)

(** X12: [-S] changes the log setup and nothing else.  Of two runs
    that return and whose options differ only in [-S], both spawn the
    same children, write the same records and perform the same
    operations after the log setup; a run that returns has opened the
    stderrs log file exactly when [-S] is not given.  In both the
    stderr of every child goes to a temporary file all the same. *)
Theorem S_flag_only_changes_log_setup env o b s1 s2 :
  main env o init = (Ok tt, s1) ->
  main env (with_S o b) init = (Ok tt, s2) ->
  spawned (trace s1) = spawned (trace s2) /\
  logged (trace s1) = logged (trace s2) /\
  (exists pg,
     trace s1 = setup_trace env o ++ pipeline_trace env pg o /\
     trace s2 = setup_trace env (with_S o b) ++ pipeline_trace env pg o) /\
  (EFileHandler (stderr_lfn env o) ∈ trace s1 <-> opt_S o = false).
Proof.
  intros H1 H2.
  apply main_returns in H1 as (pg & _ & Hf & Ht1 & _).
  apply main_returns in H2 as (pg' & _ & Hf' & Ht2 & _).
  change (all_found env (with_S o b) pg') with (all_found env o pg') in Hf'.
  rewrite (all_found_unique env o pg' pg Hf' Hf) in Ht2. clear pg' Hf'.
  rewrite Ht1, Ht2.
  split; [rewrite !spawned_complete; reflexivity |].
  split; [rewrite !logged_complete, !spawned_complete; reflexivity |].
  split; [exists pg; split; reflexivity |].
  destruct (log_files_distinct env o) as (Hcs & _ & Hss).
  unfold complete_trace, setup_trace, pipeline_trace.
  destruct (opt_S o); cbn [app]; split.
  - intros Hin.
    repeat (apply elem_of_cons in Hin as [Hin | Hin];
            [first [ discriminate Hin
                   | inversion Hin; congruence ] |]).
    inversion Hin.
  - discriminate.
  - reflexivity.
  - intros _. in_list.
Qed.

Lemma S_flag_only_changes_log_setup_witness :
  main env0 opts0 init = (Ok tt, final0) /\
  main env0 (with_S opts0 true) init =
    (Ok tt, snd (main env0 (with_S opts0 true) init)) /\
  spawned (trace final0) =
  spawned (trace (snd (main env0 (with_S opts0 true) init))).
Proof.
  assert (H1 : main env0 opts0 init = (Ok tt, final0))
    by (vm_compute; reflexivity).
  assert (H2 : main env0 (with_S opts0 true) init =
               (Ok tt, snd (main env0 (with_S opts0 true) init)))
    by (vm_compute; reflexivity).
  split; [exact H1 |]. split; [exact H2 |].
  exact (proj1 (S_flag_only_changes_log_setup env0 opts0 true _ _ H1 H2)).
Defined.

(** ** Pipe handles *)

(** X13: in every run, however it ends, a child that is given the
    stdout of an earlier child as its stdin gets a pipe that exists
    and is still open in the parent, and that no other child reads:
    the earlier child was spawned with [stdout=sp.PIPE], the parent
    has neither closed that handle nor waited for that child, and no
    child spawned before reads from it. *)
Theorem stdin_pipe_is_open_and_unshared env o l1 pid argv up out err l2 :
  trace (snd (main env o init)) =
    l1 ++ EPopen pid argv (ProcStdout up) out err :: l2 ->
  existsb (is_pipe_source up) l1 = true /\
  existsb (is_close up) l1 = false /\
  existsb (is_wait up) l1 = false /\
  existsb (reads_from up) l1 = false.
Proof.
  intros E.
  refine (run_invariant env o
            (fun past e =>
               match e with
               | EPopen _ _ (ProcStdout up) _ _ =>
                   existsb (is_pipe_source up) past = true /\
                   existsb (is_close up) past = false /\
                   existsb (is_wait up) past = false /\
                   existsb (reads_from up) past = false
               | _ => True
               end) _ l1 (EPopen pid argv (ProcStdout up) out err) l2 E).
  intros pg. along_trace ltac:(reflexivity).
Qed.

Lemma stdin_pipe_is_open_and_unshared_witness :
  (exists l1 argv l2,
     trace (snd (main env0 opts0 init)) =
     l1 ++ EPopen 4 argv (ProcStdout 3) PIPE (FileObj 5) :: l2 /\
     existsb (is_close 3) l1 = false).
Proof.
  assert (E : trace (snd (main env0 opts0 init)) =
              firstn 22 (trace final0)
              ++ EPopen 4 ["/usr/bin/sickle"; "pe"; "-t"; "20"; "-c";
                           "/dev/stdin"; "-m"; "/dev/stdout"; "-s";
                           "/tmp/unpaired_2014-05-01_12:00:00"; "-q"; "20";
                           "-l"; "40"]
                          (ProcStdout 3) PIPE (FileObj 5)
              :: skipn 23 (trace final0))
    by (vm_compute; reflexivity).
  do 3 eexists. split; [exact E |].
  exact (proj1 (proj2 (stdin_pipe_is_open_and_unshared env0 opts0 _ _ _ _ _ _ _ E))).
Defined.
